(** * Utility workflows of fmriprep.workflows.bold.util

    The module [fmriprep/workflows/bold/util.py] declares three processing
    graphs ([init_bold_reference_wf], [init_enhance_and_skullstrip_bold_wf]
    and [init_skullstrip_bold_wf]) on top of a workflow engine that lives in
    a separate library.  This development embeds

    - the data the builders create (nodes, interfaces, literal inputs,
      resource hints, connection lists), translated from the Python source;
    - the engine operations the builders and their callers rely on
      (connection checking, planning, cached execution), modelled from the
      design document of the engine;

    and states the properties of the three graphs over this embedding. *)

From Stdlib Require Import ZArith Ascii.
From stdpp Require Import base option list strings gmap.

Local Open Scope string_scope.
Local Open Scope list_scope.

(** ** Values bound to inputs *)

(** A Python literal as it appears in the source.  Floating-point literals
    are kept as their decimal text: the builders never compute with them. *)
Inductive literal : Type :=
  | LBool (b : bool)
  | LInt (z : Z)
  | LFloat (dec : string)
  | LStr (s : string).

#[global] Instance literal_eq_dec : EqDecision literal.
Proof. solve_decision. Defined.

Definition literal_encode (v : literal) : bool + Z + string + string :=
  match v with
  | LBool b => inl (inl (inl b))
  | LInt z => inl (inl (inr z))
  | LFloat d => inl (inr d)
  | LStr s => inr s
  end.

Definition literal_decode (x : bool + Z + string + string) : literal :=
  match x with
  | inl (inl (inl b)) => LBool b
  | inl (inl (inr z)) => LInt z
  | inl (inr d) => LFloat d
  | inr s => LStr s
  end.

#[global] Instance literal_countable : Countable literal.
Proof.
  apply (inj_countable' literal_encode literal_decode).
  intros []; reflexivity.
Defined.

(** Named values: keyword arguments, resolved inputs, produced outputs. *)
Abbreviation bindings := (list (string * literal)).

Fixpoint lookup_binding (k : string) (l : bindings) : option literal :=
  match l with
  | [] => None
  | (k', v) :: r => if String.eqb k' k then Some v else lookup_binding k r
  end.

Fixpoint set_binding (k : string) (v : literal) (l : bindings) : bindings :=
  match l with
  | [] => [(k, v)]
  | (k', v') :: r =>
      if String.eqb k' k then (k, v) :: r else (k', v') :: set_binding k v r
  end.

(** ** Interfaces *)

(** The external programs wrapped by the nodes of this module, named after
    the interface classes the source instantiates. *)
Inductive tool : Type :=
  | ValidateImage | EstimateReferenceImage | MaskEPI | N4BiasFieldCorrection
  | BET | DilateImage | ApplyMask | Unifize | CopyXForm | Automask
  | BinaryMaths | SimpleShowMaskRPT.

#[global] Instance tool_eq_dec : EqDecision tool.
Proof. solve_decision. Defined.

Definition tool_index (t : tool) : nat :=
  match t with
  | ValidateImage => 0 | EstimateReferenceImage => 1 | MaskEPI => 2
  | N4BiasFieldCorrection => 3 | BET => 4 | DilateImage => 5
  | ApplyMask => 6 | Unifize => 7 | CopyXForm => 8 | Automask => 9
  | BinaryMaths => 10 | SimpleShowMaskRPT => 11
  end.

Definition tool_of_index (n : nat) : tool :=
  match n with
  | 0 => ValidateImage | 1 => EstimateReferenceImage | 2 => MaskEPI
  | 3 => N4BiasFieldCorrection | 4 => BET | 5 => DilateImage
  | 6 => ApplyMask | 7 => Unifize | 8 => CopyXForm | 9 => Automask
  | 10 => BinaryMaths | _ => SimpleShowMaskRPT
  end.

#[global] Instance tool_countable : Countable tool.
Proof.
  apply (inj_countable' tool_index tool_of_index).
  intros []; reflexivity.
Defined.

(** What an interface is: a pass-through with a fixed list of named slots
    ([niu.IdentityInterface(fields=...)]), or a wrapped external tool. *)
Inductive kind : Type :=
  | IdentityInterface (fields : list string)
  | External (t : tool).

#[global] Instance kind_eq_dec : EqDecision kind.
Proof. solve_decision. Defined.

#[global] Instance kind_countable : Countable kind.
Proof.
  apply (inj_countable'
           (fun k => match k with
                     | IdentityInterface fs => inl fs
                     | External t => inr t
                     end)
           (fun x => match x with
                     | inl fs => IdentityInterface fs
                     | inr t => External t
                     end)).
  intros []; reflexivity.
Defined.

(** An interface instance: its kind and the inputs bound on it, by keyword
    argument at construction or by assignment to [node.inputs] later. *)
Record Interface : Type := mkInterface {
  iface_kind : kind;
  iface_inputs : bindings
}.

#[global] Instance Interface_eq_dec : EqDecision Interface.
Proof. solve_decision. Defined.

Definition niu_IdentityInterface (fields : list string) : Interface :=
  mkInterface (IdentityInterface fields) [].

(** [cls(k1=v1, ...)] for a tool interface class [cls]. *)
Definition instantiate (t : tool) (kwargs : bindings) : Interface :=
  mkInterface (External t) kwargs.

(** ** Nodes *)

(** A node as [pe.Node(interface, name=..., mem_gb=..., n_procs=...)]
    records it.  A resource hint the source does not pass is [None] (left
    to the engine). *)
Record Node : Type := mkNode {
  node_interface : Interface;
  node_name : string;
  mem_gb : option literal;
  n_procs : option Z
}.

#[global] Instance Node_eq_dec : EqDecision Node.
Proof. solve_decision. Defined.

(** [node.inputs.k = v] *)
Definition set_input (k : string) (v : literal) (n : Node) : Node :=
  mkNode
    (mkInterface (iface_kind (node_interface n))
                 (set_binding k v (iface_inputs (node_interface n))))
    (node_name n) (mem_gb n) (n_procs n).

Definition is_identity (n : Node) : bool :=
  match iface_kind (node_interface n) with
  | IdentityInterface _ => true
  | External _ => false
  end.

(** ** Workflows *)

(** An edge [(src, src_out) -> (dst, dst_in)] between two members of one
    workflow, named by member.  A port of a nested workflow is written
    [node.port], as in the source (['inputnode.in_file']). *)
Record Connection : Type := mkConnection {
  src : string;
  src_out : string;
  dst : string;
  dst_in : string
}.

#[global] Instance Connection_eq_dec : EqDecision Connection.
Proof. solve_decision. Defined.

Inductive Workflow : Type :=
  | mkWorkflow (name : string) (members : list Member)
               (connections : list Connection)
with Member : Type :=
  | MNode (n : Node)
  | MWorkflow (w : Workflow).

Definition wf_name (w : Workflow) : string :=
  match w with mkWorkflow n _ _ => n end.

Definition wf_members (w : Workflow) : list Member :=
  match w with mkWorkflow _ ms _ => ms end.

Definition wf_connections (w : Workflow) : list Connection :=
  match w with mkWorkflow _ _ cs => cs end.

Definition member_name (m : Member) : string :=
  match m with
  | MNode n => node_name n
  | MWorkflow w => wf_name w
  end.

(** A workflow with no member and no connection, as [pe.Workflow] makes
    it. *)
Definition empty_workflow (name : string) : Workflow := mkWorkflow name [] [].

Fixpoint Workflow_eqb (a b : Workflow) {struct a} : bool :=
  match a, b with
  | mkWorkflow n1 ms1 cs1, mkWorkflow n2 ms2 cs2 =>
      String.eqb n1 n2
      && (fix all2 (l1 l2 : list Member) {struct l1} : bool :=
            match l1, l2 with
            | [], [] => true
            | x :: r1, y :: r2 => Member_eqb x y && all2 r1 r2
            | _, _ => false
            end) ms1 ms2
      && bool_decide (cs1 = cs2)
  end
with Member_eqb (a b : Member) {struct a} : bool :=
  match a, b with
  | MNode n1, MNode n2 => bool_decide (n1 = n2)
  | MWorkflow w1, MWorkflow w2 => Workflow_eqb w1 w2
  | _, _ => false
  end.

Definition find_member (name : string) (ms : list Member) : option Member :=
  find (fun m => String.eqb (member_name m) name) ms.

Definition find_node (name : string) (w : Workflow) : option Node :=
  match find_member name (wf_members w) with
  | Some (MNode n) => Some n
  | _ => None
  end.

(** ** Engine state and results *)

(** Qualified identity of a leaf node: the names from the root workflow's
    member down to the node. *)
Abbreviation path := (list string).

(** Modelled from the spec: the cache key of section 3, a fingerprint over
    the node's qualified path, its interface identity and its canonicalized
    resolved inputs.  The engine's hash function is not under src/; the key
    is kept as the triple itself. *)
Abbreviation Fingerprint := (path * kind * bindings)%type.

(** Modelled from the spec: the execution cache and the record of the
    units of work actually dispatched (section 4.3).  The engine's store is
    not under src/. *)
Record World : Type := mkWorld {
  cache : gmap Fingerprint bindings;
  dispatched : list Fingerprint
}.

Definition empty_world : World := mkWorld ∅ [].

(** Modelled from the spec: the error taxonomy of section 7.  [NotReady]
    stands for the refusal to execute a graph with an unresolved required
    input (section 3), which the spec leaves unnamed.  [InvalidName] stands
    for the [ValueError] with which the engine's constructors refuse a name
    they do not accept; section 7 does not list it. *)
Inductive EngineError : Type :=
  | DuplicateName (name : string)
  | UnknownPort (member : string) (port : string)
  | TypeMismatch (src_type dst_type : string)
  | DuplicateInput (member : string) (port : string)
  | NotReady (node : path) (input : string)
  | CycleDetected (cycle : list path)
  | InvalidName (name : string).

Inductive result (A : Type) : Type :=
  | OK (a : A)
  | Error (e : EngineError).
Arguments OK {A} a.
Arguments Error {A} e.

#[global] Instance result_ret : MRet result := fun A a => OK a.
#[global] Instance result_bind : MBind result := fun A B f r =>
  match r with
  | OK a => f a
  | Error e => Error e
  end.

(** Engine operations read and write the engine state and may fail. *)
Definition M (A : Type) : Type := World -> result A * World.

#[global] Instance M_ret : MRet M := fun A a w => (OK a, w).
#[global] Instance M_bind : MBind M := fun A B f m w =>
  match m w with
  | (OK a, w') => f a w'
  | (Error e, w') => (Error e, w')
  end.

(** Modelled from the spec: an interface descriptor (section 3) for a
    wrapped tool: its inputs with semantic type and required flag, its
    outputs with semantic type.  The tool interface classes are imported
    by the source from other libraries and are not under src/. *)
Record Descriptor : Type := mkDescriptor {
  d_inputs : list (string * (string * bool));
  d_outputs : list (string * string)
}.

Fixpoint assoc {V : Type} (k : string) (l : list (string * V)) : option V :=
  match l with
  | [] => None
  | (k', v) :: r => if String.eqb k' k then Some v else assoc k r
  end.

(** Components of a dotted port name: ["inputnode.in_file"] gives
    [["inputnode"; "in_file"]]. *)
Fixpoint split_on (c : ascii) (s : string) : list string :=
  match s with
  | EmptyString => [EmptyString]
  | String a r =>
      if Ascii.eqb a c then EmptyString :: split_on c r
      else match split_on c r with
           | [] => [String a EmptyString]
           | h :: t => String a h :: t
           end
  end.

Definition port_components (port : string) : list string := split_on "." port.

(** The node and field a port of a member denotes; for a nested workflow
    the leading components name the members to descend through. *)
Fixpoint locate (comps : list string) (m : Member) : option (Node * string) :=
  match comps with
  | [] => None
  | c :: rest =>
      match rest with
      | [] => match m with
              | MNode n => Some (n, c)
              | MWorkflow _ => None
              end
      | _ :: _ => match m with
                  | MNode _ => None
                  | MWorkflow w =>
                      match find_member c (wf_members w) with
                      | Some m' => locate rest m'
                      | None => None
                      end
                  end
      end
  end.

Definition locate_port (m : Member) (port : string) : option (Node * string) :=
  locate (port_components port) m.

(** ** Graph builder *)

(** One requested edge, between two member objects as the source passes
    them to [workflow.connect]. *)
Abbreviation Edge := (Member * string * Member * string)%type.

(** The argument of [workflow.connect]: a list of
    [(source, destination, [(output, input), ...])]. *)
Abbreviation ConnectionList := (list (Member * Member * list (string * string))).

Definition expand (l : ConnectionList) : list Edge :=
  flat_map (fun '(s, d, ports) => map (fun '(o, i) => (s, o, d, i)) ports) l.

Definition edge_connection (e : Edge) : Connection :=
  let '(s, o, d, i) := e in mkConnection (member_name s) o (member_name d) i.

(** A member joins the workflow the first time a connection mentions it. *)
Definition add_absent (m : Member) (ms : list Member) : list Member :=
  match find_member (member_name m) ms with
  | Some _ => ms
  | None => ms ++ [m]
  end.

(** Modelled from the spec: the structural effect of one accepted edge on
    the graph (section 4.1): its endpoints are members, the edge is a
    connection. *)
Definition declare1 (w : Workflow) (e : Edge) : Workflow :=
  let '(s, _, d, _) := e in
  mkWorkflow (wf_name w)
             (add_absent d (add_absent s (wf_members w)))
             (wf_connections w ++ [edge_connection e]).

Definition declare (w : Workflow) (es : list Edge) : Workflow :=
  fold_left declare1 es w.

Definition already_connected (d i : string) (cs : list Connection) : bool :=
  existsb (fun c => String.eqb (dst c) d && String.eqb (dst_in c) i) cs.

(** Semantic types are compatible when they are the same; a pass-through
    slot carries no type and accepts any. *)
Definition compatible (a b : option string) : bool :=
  match a, b with
  | Some x, Some y => String.eqb x y
  | _, _ => true
  end.

Section Builder.

(** The descriptors of the wrapped tools, declared outside this module. *)
Variable descriptor : tool -> Descriptor.

(** Modelled from the spec: the ports of an interface (section 3).  The
    declared type of an output port: [None] when the interface has no such
    port, [Some None] for an untyped pass-through slot, whose ports are its
    fields. *)
Definition output_type (n : Node) (p : string) : option (option string) :=
  match iface_kind (node_interface n) with
  | IdentityInterface fs => if bool_decide (p ∈ fs) then Some None else None
  | External t => Some <$> assoc p (d_outputs (descriptor t))
  end.

Definition input_type (n : Node) (p : string) : option (option string) :=
  match iface_kind (node_interface n) with
  | IdentityInterface fs => if bool_decide (p ∈ fs) then Some None else None
  | External t => (fun x => Some (fst x)) <$> assoc p (d_inputs (descriptor t))
  end.

Definition source_port (m : Member) (port : string) : option (option string) :=
  '(n, p) ← locate_port m port; output_type n p.

Definition dest_port (m : Member) (port : string) : option (option string) :=
  '(n, p) ← locate_port m port; input_type n p.

(** Modelled from the spec: adding a member (section 4.1).  A name
    already taken by another member is refused with [DuplicateName];
    mentioning a member again is not an addition. *)
Definition add_member (m : Member) (ms : list Member) : result (list Member) :=
  match find_member (member_name m) ms with
  | None => OK (ms ++ [m])
  | Some m' =>
      if Member_eqb m' m then OK ms else Error (DuplicateName (member_name m))
  end.

(** Modelled from the spec: [connect(src_ref, src_out, dst_ref, dst_in)]
    of section 4.1, with its three structural checks.  The engine's
    [connect] is not under src/. *)
Definition connect1 (w : Workflow) (e : Edge) : result Workflow :=
  let '(s, o, d, i) := e in
  ms1 ← add_member s (wf_members w);
  ms2 ← add_member d ms1;
  match source_port s o with
  | None => Error (UnknownPort (member_name s) o)
  | Some to =>
      match dest_port d i with
      | None => Error (UnknownPort (member_name d) i)
      | Some ti =>
          if negb (compatible to ti)
          then Error (TypeMismatch (default "" to) (default "" ti))
          else if already_connected (member_name d) i (wf_connections w)
          then Error (DuplicateInput (member_name d) i)
          else OK (mkWorkflow (wf_name w) ms2
                              (wf_connections w ++ [edge_connection e]))
      end
  end.

Fixpoint connect_all (w : Workflow) (es : list Edge) : result Workflow :=
  match es with
  | [] => OK w
  | e :: r => w' ← connect1 w e; connect_all w' r
  end.

(** Modelled from the spec: [workflow.connect([...])], the engine call the
    builders make, which is not under src/.  Every edge of the list is
    checked and added in order; the first refusal rejects the whole call
    (section 7).  The engine state is not touched: building performs no
    execution (section 4.1). *)
Definition connect (w : Workflow) (l : ConnectionList) : M Workflow :=
  fun world => (connect_all w (expand l), world).

End Builder.

(** ** The three workflow builders of [util.py] *)

Coercion MNode : Node >-> Member.
Coercion MWorkflow : Workflow >-> Member.

Definition DEFAULT_MEMORY_MIN_GB : literal := LFloat "0.01".

Section Workflows.

Variable descriptor : tool -> Descriptor.

(** The check the engine's constructors [pe.Workflow] and [pe.Node] make
    of the name they are given, declared outside this module. *)
Variable valid_name : string -> bool.

(** [pe.Workflow(name=...)].  The constructor is engine code, not under
    src/: it raises [ValueError] on a name the engine does not accept, and
    otherwise makes a workflow with no member and no connection. *)
Definition pe_Workflow (name : string) : M Workflow := fun world =>
  if valid_name name then (OK (empty_workflow name), world)
  else (Error (InvalidName name), world).

(** [pe.Node(interface, name=..., mem_gb=..., n_procs=...)].  The
    constructor is engine code, not under src/: it raises [ValueError] on a
    name the engine does not accept, and otherwise records its arguments. *)
Definition pe_Node (i : Interface) (name : string)
    (mem : option literal) (procs : option Z) : M Node := fun world =>
  if valid_name name then (OK (mkNode i name mem procs), world)
  else (Error (InvalidName name), world).

Definition init_enhance_and_skullstrip_bold_wf
    (name : string) (omp_nthreads : Z) : M Workflow :=
  workflow ← pe_Workflow name;
  inputnode ←
    pe_Node (niu_IdentityInterface ["in_file"]) "inputnode" None None;
  outputnode ←
    pe_Node (niu_IdentityInterface
               ["mask_file"; "skull_stripped_file"; "bias_corrected_file"])
            "outputnode" None None;
  n4_mask ←
    pe_Node (instantiate MaskEPI
               [("upper_cutoff", LFloat "0.95"); ("opening", LInt 1);
                ("no_sanitize", LBool true)])
            "n4_mask" None None;
  n4_correct ←
    pe_Node (instantiate N4BiasFieldCorrection
               [("dimension", LInt 3); ("copy_header", LBool true)])
            "n4_correct" None (Some 1%Z);
  skullstrip_first_pass ←
    pe_Node (instantiate BET [("frac", LFloat "0.2"); ("mask", LBool true)])
            "skullstrip_first_pass" None None;
  bet_dilate ←
    pe_Node (instantiate DilateImage
               [("operation", LStr "max"); ("kernel_shape", LStr "sphere");
                ("kernel_size", LFloat "6.0");
                ("internal_datatype", LStr "char")])
            "skullstrip_first_dilate" None None;
  bet_mask ←
    pe_Node (instantiate ApplyMask []) "skullstrip_first_mask" None None;
  unifize ←
    pe_Node (instantiate Unifize
               [("t2", LBool true); ("outputtype", LStr "NIFTI_GZ");
                ("args", LStr "-clfrac 0.2 -rbt 18.3 65.0 90.0");
                ("out_file", LStr "uni.nii.gz")])
            "unifize" None None;
  fixhdr_unifize ←
    pe_Node (instantiate CopyXForm []) "fixhdr_unifize"
            (Some (LFloat "0.1")) None;
  skullstrip_second_pass ←
    pe_Node (instantiate Automask
               [("dilate", LInt 1); ("outputtype", LStr "NIFTI_GZ")])
            "skullstrip_second_pass" None None;
  fixhdr_skullstrip2 ←
    pe_Node (instantiate CopyXForm []) "fixhdr_skullstrip2"
            (Some (LFloat "0.1")) None;
  combine_masks ←
    pe_Node (instantiate BinaryMaths [("operation", LStr "mul")])
            "combine_masks" None None;
  apply_mask ←
    pe_Node (instantiate ApplyMask []) "apply_mask" None None;
  connect descriptor workflow [
    (MNode inputnode, MNode n4_mask, [("in_file", "in_files")]);
    (MNode inputnode, MNode n4_correct, [("in_file", "input_image")]);
    (MNode inputnode, MNode fixhdr_unifize, [("in_file", "hdr_file")]);
    (MNode inputnode, MNode fixhdr_skullstrip2, [("in_file", "hdr_file")]);
    (MNode n4_mask, MNode n4_correct, [("out_mask", "mask_image")]);
    (MNode n4_correct, MNode skullstrip_first_pass,
       [("output_image", "in_file")]);
    (MNode skullstrip_first_pass, MNode bet_dilate,
       [("mask_file", "in_file")]);
    (MNode bet_dilate, MNode bet_mask, [("out_file", "mask_file")]);
    (MNode skullstrip_first_pass, MNode bet_mask,
       [("out_file", "in_file")]);
    (MNode bet_mask, MNode unifize, [("out_file", "in_file")]);
    (MNode unifize, MNode fixhdr_unifize, [("out_file", "in_file")]);
    (MNode fixhdr_unifize, MNode skullstrip_second_pass,
       [("out_file", "in_file")]);
    (MNode skullstrip_first_pass, MNode combine_masks,
       [("mask_file", "in_file")]);
    (MNode skullstrip_second_pass, MNode fixhdr_skullstrip2,
       [("out_file", "in_file")]);
    (MNode fixhdr_skullstrip2, MNode combine_masks,
       [("out_file", "operand_file")]);
    (MNode fixhdr_unifize, MNode apply_mask, [("out_file", "in_file")]);
    (MNode combine_masks, MNode apply_mask, [("out_file", "mask_file")]);
    (MNode combine_masks, MNode outputnode, [("out_file", "mask_file")]);
    (MNode apply_mask, MNode outputnode,
       [("out_file", "skull_stripped_file")]);
    (MNode n4_correct, MNode outputnode,
       [("output_image", "bias_corrected_file")])
  ].

Definition init_bold_reference_wf
    (omp_nthreads : Z) (bold_file : option string) (name : string)
    : M Workflow :=
  workflow ← pe_Workflow name;
  inputnode ←
    pe_Node (niu_IdentityInterface ["bold_file"]) "inputnode" None None;
  outputnode ←
    pe_Node (niu_IdentityInterface
               ["bold_file"; "raw_ref_image"; "skip_vols"; "ref_image";
                "ref_image_brain"; "bold_mask"; "validation_report"])
            "outputnode" None None;
  let inputnode :=
    match bold_file with
    | Some f => set_input "bold_file" (LStr f) inputnode
    | None => inputnode
    end in
  validate ←
    pe_Node (instantiate ValidateImage []) "validate"
            (Some DEFAULT_MEMORY_MIN_GB) None;
  gen_ref ←
    pe_Node (instantiate EstimateReferenceImage []) "gen_ref"
            (Some (LInt 1)) None;
  enhance_and_skullstrip_bold_wf ←
    init_enhance_and_skullstrip_bold_wf
      "enhance_and_skullstrip_bold_wf" omp_nthreads;
  connect descriptor workflow [
    (MNode inputnode, MNode validate, [("bold_file", "in_file")]);
    (MNode validate, MNode gen_ref, [("out_file", "in_file")]);
    (MNode gen_ref, MWorkflow enhance_and_skullstrip_bold_wf,
       [("ref_image", "inputnode.in_file")]);
    (MNode validate, MNode outputnode,
       [("out_file", "bold_file"); ("out_report", "validation_report")]);
    (MNode gen_ref, MNode outputnode,
       [("ref_image", "raw_ref_image");
        ("n_volumes_to_discard", "skip_vols")]);
    (MWorkflow enhance_and_skullstrip_bold_wf, MNode outputnode,
       [("outputnode.bias_corrected_file", "ref_image");
        ("outputnode.mask_file", "bold_mask");
        ("outputnode.skull_stripped_file", "ref_image_brain")])
  ].

Definition init_skullstrip_bold_wf (name : string) : M Workflow :=
  workflow ← pe_Workflow name;
  inputnode ←
    pe_Node (niu_IdentityInterface ["in_file"]) "inputnode" None None;
  outputnode ←
    pe_Node (niu_IdentityInterface
               ["mask_file"; "skull_stripped_file"; "out_report"])
            "outputnode" None None;
  skullstrip_first_pass ←
    pe_Node (instantiate BET [("frac", LFloat "0.2"); ("mask", LBool true)])
            "skullstrip_first_pass" None None;
  skullstrip_second_pass ←
    pe_Node (instantiate Automask
               [("dilate", LInt 1); ("outputtype", LStr "NIFTI_GZ")])
            "skullstrip_second_pass" None None;
  combine_masks ←
    pe_Node (instantiate BinaryMaths [("operation", LStr "mul")])
            "combine_masks" None None;
  apply_mask ←
    pe_Node (instantiate ApplyMask []) "apply_mask" None None;
  mask_reportlet ←
    pe_Node (instantiate SimpleShowMaskRPT []) "mask_reportlet" None None;
  connect descriptor workflow [
    (MNode inputnode, MNode skullstrip_first_pass,
       [("in_file", "in_file")]);
    (MNode skullstrip_first_pass, MNode skullstrip_second_pass,
       [("out_file", "in_file")]);
    (MNode skullstrip_first_pass, MNode combine_masks,
       [("mask_file", "in_file")]);
    (MNode skullstrip_second_pass, MNode combine_masks,
       [("out_file", "operand_file")]);
    (MNode combine_masks, MNode outputnode, [("out_file", "mask_file")]);
    (MNode inputnode, MNode apply_mask, [("in_file", "in_file")]);
    (MNode combine_masks, MNode apply_mask, [("out_file", "mask_file")]);
    (MNode apply_mask, MNode outputnode,
       [("out_file", "skull_stripped_file")]);
    (MNode inputnode, MNode mask_reportlet,
       [("in_file", "background_file")]);
    (MNode combine_masks, MNode mask_reportlet,
       [("out_file", "mask_file")]);
    (MNode mask_reportlet, MNode outputnode,
       [("out_report", "out_report")])
  ].

(** A call of one of the three builders with its arguments. *)
Inductive BuilderCall : Type :=
  | BoldReference (omp_nthreads : Z) (bold_file : option string)
                  (name : string)
  | EnhanceAndSkullstrip (name : string) (omp_nthreads : Z)
  | Skullstrip (name : string).

Definition build (c : BuilderCall) : M Workflow :=
  match c with
  | BoldReference omp bold_file name =>
      init_bold_reference_wf omp bold_file name
  | EnhanceAndSkullstrip name omp =>
      init_enhance_and_skullstrip_bold_wf name omp
  | Skullstrip name => init_skullstrip_bold_wf name
  end.

End Workflows.

(** A descriptor table declaring, for each wrapped tool, the ports this
    module binds or connects (files are typed ["File"]; an input fed by a
    connection is required).  It instantiates the engine for concrete runs
    of the builders. *)
Definition used_ports (t : tool) : Descriptor :=
  match t with
  | ValidateImage =>
      mkDescriptor [("in_file", ("File", true))]
                   [("out_file", "File"); ("out_report", "File")]
  | EstimateReferenceImage =>
      mkDescriptor [("in_file", ("File", true))]
                   [("ref_image", "File"); ("n_volumes_to_discard", "Int")]
  | MaskEPI =>
      mkDescriptor [("in_files", ("File", true));
                    ("upper_cutoff", ("Float", false));
                    ("opening", ("Int", false));
                    ("no_sanitize", ("Bool", false))]
                   [("out_mask", "File")]
  | N4BiasFieldCorrection =>
      mkDescriptor [("input_image", ("File", true));
                    ("mask_image", ("File", false));
                    ("dimension", ("Int", false));
                    ("copy_header", ("Bool", false))]
                   [("output_image", "File")]
  | BET =>
      mkDescriptor [("in_file", ("File", true)); ("frac", ("Float", false));
                    ("mask", ("Bool", false))]
                   [("out_file", "File"); ("mask_file", "File")]
  | DilateImage =>
      mkDescriptor [("in_file", ("File", true));
                    ("operation", ("Str", true));
                    ("kernel_shape", ("Str", false));
                    ("kernel_size", ("Float", false));
                    ("internal_datatype", ("Str", false))]
                   [("out_file", "File")]
  | ApplyMask =>
      mkDescriptor [("in_file", ("File", true)); ("mask_file", ("File", true))]
                   [("out_file", "File")]
  | Unifize =>
      mkDescriptor [("in_file", ("File", true)); ("t2", ("Bool", false));
                    ("outputtype", ("Str", false)); ("args", ("Str", false));
                    ("out_file", ("File", false))]
                   [("out_file", "File")]
  | CopyXForm =>
      mkDescriptor [("in_file", ("File", true)); ("hdr_file", ("File", true))]
                   [("out_file", "File")]
  | Automask =>
      mkDescriptor [("in_file", ("File", true)); ("dilate", ("Int", false));
                    ("outputtype", ("Str", false))]
                   [("out_file", "File")]
  | BinaryMaths =>
      mkDescriptor [("in_file", ("File", true));
                    ("operand_file", ("File", true));
                    ("operation", ("Str", true))]
                   [("out_file", "File")]
  | SimpleShowMaskRPT =>
      mkDescriptor [("background_file", ("File", true));
                    ("mask_file", ("File", true))]
                   [("out_report", "File")]
  end.

(** A descriptor table that declares no port at all. *)
Definition no_ports (t : tool) : Descriptor := mkDescriptor [] [].

(** A name check that accepts every name. *)
Definition any_name (name : string) : bool := true.

Definition word_character (a : ascii) : bool :=
  let n := nat_of_ascii a in
  ((48 <=? n) && (n <=? 57) || (65 <=? n) && (n <=? 90)
   || (97 <=? n) && (n <=? 122) || (n =? 95) || (n =? 45))%nat.

Fixpoint word_characters (s : string) : bool :=
  match s with
  | EmptyString => true
  | String a r => word_character a && word_characters r
  end.

(** A name check for concrete runs of the builders: a name is accepted
    when it is not empty and made of letters, digits, underscores and
    hyphens. *)
Definition word_name (name : string) : bool :=
  negb (String.eqb name "") && word_characters name.

(** ** Topological planner *)

Record FlatNode : Type := mkFlatNode {
  fn_path : path;
  fn_node : Node
}.

Record FlatEdge : Type := mkFlatEdge {
  fe_src : path;
  fe_out : string;
  fe_dst : path;
  fe_in : string
}.

#[global] Instance FlatEdge_eq_dec : EqDecision FlatEdge.
Proof. solve_decision. Defined.

Record FlatGraph : Type := mkFlatGraph {
  fg_nodes : list FlatNode;
  fg_edges : list FlatEdge
}.

(** The leaf node and field named by a member and one of its ports. *)
Definition endpoint (member port : string) : path * string :=
  let comps := port_components port in
  (member :: removelast comps, List.last comps "").

Definition flat_edge (c : Connection) : FlatEdge :=
  let '(sp, so) := endpoint (src c) (src_out c) in
  let '(dp, di) := endpoint (dst c) (dst_in c) in
  mkFlatEdge sp so dp di.

Definition prefix_node (name : string) (n : FlatNode) : FlatNode :=
  mkFlatNode (name :: fn_path n) (fn_node n).

Definition prefix_edge (name : string) (e : FlatEdge) : FlatEdge :=
  mkFlatEdge (name :: fe_src e) (fe_out e) (name :: fe_dst e) (fe_in e).

(** Modelled from the spec: recursive flattening of nested graphs (section
    4.2); every leaf node gets its qualified path.  The engine's planner is
    not under src/. *)
Fixpoint expand_workflow (w : Workflow) : FlatGraph :=
  match w with
  | mkWorkflow _ ms cs =>
      let inner :=
        (fix go (l : list Member) : FlatGraph :=
           match l with
           | [] => mkFlatGraph [] []
           | MNode n :: r =>
               let g := go r in
               mkFlatGraph (mkFlatNode [node_name n] n :: fg_nodes g)
                           (fg_edges g)
           | MWorkflow s :: r =>
               let g := go r in
               let gs := expand_workflow s in
               mkFlatGraph
                 (map (prefix_node (wf_name s)) (fg_nodes gs) ++ fg_nodes g)
                 (map (prefix_edge (wf_name s)) (fg_edges gs) ++ fg_edges g)
           end) ms in
      mkFlatGraph (fg_nodes inner) (fg_edges inner ++ map flat_edge cs)
  end.

(** A boundary node of an embedded graph: a pass-through node below the
    root level. *)
Definition is_boundary (n : FlatNode) : bool :=
  is_identity (fn_node n) && (1 <? length (fn_path n))%nat.

Definition bind_literal (p : path) (k : string) (v : literal)
    (ns : list FlatNode) : list FlatNode :=
  map (fun n => if bool_decide (fn_path n = p)
                then mkFlatNode p (set_input k v (fn_node n)) else n) ns.

Definition find_flat_node (p : path) (g : FlatGraph) : option FlatNode :=
  find (fun n => bool_decide (fn_path n = p)) (fg_nodes g).

(** Modelled from the spec: bypassing the boundary node at path [p]
    (sections 4.2 and 4.5).  Every edge leaving slot [f] of the node is
    re-attached to the source feeding [f]; a slot fed by no edge hands its
    literal, if it has one, to the destinations.  The node and its edges
    are dropped. *)
Definition bypass1 (g : FlatGraph) (p : path) : FlatGraph :=
  let literals :=
    match find_flat_node p g with
    | Some b => iface_inputs (node_interface (fn_node b))
    | None => []
    end in
  let ins := filter (fun e => fe_dst e = p) (fg_edges g) in
  let outs := filter (fun e => fe_src e = p) (fg_edges g) in
  let rest := filter (fun e => fe_dst e ≠ p ∧ fe_src e ≠ p) (fg_edges g) in
  let rewired :=
    flat_map (fun o =>
      map (fun i => mkFlatEdge (fe_src i) (fe_out i) (fe_dst o) (fe_in o))
          (filter (fun i => fe_in i = fe_out o) ins)) outs in
  let kept := filter (fun n => fn_path n ≠ p) (fg_nodes g) in
  let pushed :=
    fold_left (fun ns o =>
      match filter (fun i => fe_in i = fe_out o) ins with
      | [] => match lookup_binding (fe_out o) literals with
              | Some v => bind_literal (fe_dst o) (fe_in o) v ns
              | None => ns
              end
      | _ :: _ => ns
      end) outs kept in
  mkFlatGraph pushed (rest ++ rewired).

Definition flatten (w : Workflow) : FlatGraph :=
  let g := expand_workflow w in
  fold_left bypass1
            (map fn_path (filter (fun n => is_boundary n = true) (fg_nodes g)))
            g.

(** A pending node is ready when no pending node feeds it. *)
Definition feeds_from (pending : list path) (p : path) (e : FlatEdge) : bool :=
  bool_decide (fe_dst e = p) && bool_decide (fe_src e ∈ pending).

Definition ready (edges : list FlatEdge) (pending : list path) (p : path)
    : bool :=
  forallb (fun e => negb (feeds_from pending p e)) edges.

Fixpoint until_node (p : path) (l : list path) : list path :=
  match l with
  | [] => []
  | q :: r => if bool_decide (q = p) then [] else q :: until_node p r
  end.

(** Walks backwards along edges between pending nodes until a node
    repeats; returns the cycle found, in edge order. *)
Fixpoint walk_back (fuel : nat) (edges : list FlatEdge) (pending : list path)
    (cur : path) (seen : list path) : list path :=
  if bool_decide (cur ∈ seen) then cur :: until_node cur seen
  else match fuel with
       | O => []
       | S f =>
           match find (feeds_from pending cur) edges with
           | Some e => walk_back f edges pending (fe_src e) (cur :: seen)
           | None => []
           end
       end.

Definition find_cycle (edges : list FlatEdge) (pending : list path)
    : list path :=
  match pending with
  | [] => []
  | p :: _ => walk_back (length pending) edges pending p []
  end.

(** Modelled from the spec: the linear order of section 4.2.  Among the
    nodes that are ready the first in insertion order is taken, so the
    order is a function of the build sequence.  When no pending node is
    ready the pending nodes contain a cycle, which is reported. *)
Fixpoint topological_order (fuel : nat) (edges : list FlatEdge)
    (pending done : list path) : result (list path) :=
  match pending with
  | [] => OK done
  | _ :: _ =>
      match fuel with
      | O => Error (CycleDetected (find_cycle edges pending))
      | S f =>
          match find (ready edges pending) pending with
          | Some p =>
              topological_order f edges
                (filter (fun q => q ≠ p) pending) (done ++ [p])
          | None => Error (CycleDetected (find_cycle edges pending))
          end
      end
  end.

(** Modelled from the spec: the planner's contract of section 4.2, on a
    flattened graph and on a workflow. *)
Definition plan_flat (g : FlatGraph) : result (list path) :=
  let ps := map fn_path (fg_nodes g) in
  topological_order (length ps) (fg_edges g) ps [].

Definition plan (w : Workflow) : result (FlatGraph * list path) :=
  let g := flatten w in
  order ← plan_flat g; OK (g, order).

(** ** Executor *)

(** What the external collaborator of a node answers (section 6). *)
Inductive outcome : Type :=
  | Produced (outs : bindings)
  | ExecutionFailed (msg : string).

Inductive Status : Type :=
  | Completed
  | CacheHit
  | Failed (msg : string)
  | Blocked.

Definition succeeded (s : Status) : bool :=
  match s with
  | Completed | CacheHit => true
  | Failed _ | Blocked => false
  end.

Inductive RunStatus : Type := Success | PartialFailure.

(** Outputs produced so far and the state reached by each node. *)
Record RunState : Type := mkRunState {
  rs_outputs : gmap path bindings;
  rs_status : gmap path Status
}.

Definition initial_state : RunState := mkRunState ∅ ∅.

Record RunReport : Type := mkRunReport {
  run_status : RunStatus;
  outputs : gmap path bindings;
  failures : list (path * string);
  blocked : list path;
  node_status : list (path * option Status)
}.

(** A literal override [(node, input, value)] for a source node. *)
Abbreviation Overrides := (list (path * string * literal)).

Fixpoint insert_sorted (b : string * literal) (l : bindings) : bindings :=
  match l with
  | [] => [b]
  | h :: t =>
      if String.leb (fst b) (fst h) then b :: l else h :: insert_sorted b t
  end.

(** Canonical form of resolved inputs: ordered by input name. *)
Definition canonical (l : bindings) : bindings := foldr insert_sorted [] l.

Definition upstream_failed (g : FlatGraph) (st : RunState) (p : path) : bool :=
  existsb (fun e =>
             bool_decide (fe_dst e = p)
             && match rs_status st !! fe_src e with
                | Some s => negb (succeeded s)
                | None => false
                end) (fg_edges g).

(** Modelled from the spec: input resolution of section 4.3.  Literals
    bound on the interface, then overrides for this node, then the values
    produced upstream along each inbound edge. *)
Definition resolve_inputs (g : FlatGraph) (ov : Overrides) (st : RunState)
    (n : FlatNode) : bindings :=
  let p := fn_path n in
  let lits := iface_inputs (node_interface (fn_node n)) in
  let overridden :=
    fold_left (fun acc '(q, k, v) =>
                 if bool_decide (q = p) then set_binding k v acc else acc)
              ov lits in
  let connected :=
    fold_left (fun acc e =>
                 if bool_decide (fe_dst e = p)
                 then match rs_outputs st !! fe_src e
                            ≫= lookup_binding (fe_out e) with
                      | Some v => set_binding (fe_in e) v acc
                      | None => acc
                      end
                 else acc)
              (fg_edges g) overridden in
  canonical connected.

Definition record (p : path) (s : Status) (outs : option bindings)
    (st : RunState) : RunState :=
  mkRunState
    (match outs with
     | Some o => <[p := o]> (rs_outputs st)
     | None => rs_outputs st
     end)
    (<[p := s]> (rs_status st)).

Section Executor.

Variable descriptor : tool -> Descriptor.

(** The unit of work wrapped by each tool: the external program. *)
Variable execute : tool -> bindings -> outcome.

(** Modelled from the spec: dispatch of a node's unit of work (section
    6).  A pass-through node hands its declared slots over unchanged. *)
Definition dispatch (k : kind) (inputs : bindings) : outcome :=
  match k with
  | IdentityInterface fs =>
      Produced (filter (fun b => fst b ∈ fs) inputs)
  | External t => execute t inputs
  end.

(** Modelled from the spec: one step of the executor (section 4.3).  A
    node downstream of a failed or blocked node is marked [Blocked] and
    not attempted.  Otherwise its fingerprint is looked up in the cache:
    a hit skips the invocation, a miss dispatches the unit of work and
    stores a successful result. *)
Definition exec_node (g : FlatGraph) (ov : Overrides) (n : FlatNode)
    (st : RunState) (w : World) : RunState * World :=
  let p := fn_path n in
  if upstream_failed g st p then (record p Blocked None st, w)
  else
    let k := iface_kind (node_interface (fn_node n)) in
    let inputs := resolve_inputs g ov st n in
    let key : Fingerprint := (p, k, inputs) in
    match cache w !! key with
    | Some outs => (record p CacheHit (Some outs) st, w)
    | None =>
        match dispatch k inputs with
        | Produced outs =>
            (record p Completed (Some outs) st,
             mkWorld (<[key := outs]> (cache w)) (dispatched w ++ [key]))
        | ExecutionFailed msg =>
            (record p (Failed msg) None st,
             mkWorld (cache w) (dispatched w ++ [key]))
        end
    end.

Fixpoint exec_plan (g : FlatGraph) (ov : Overrides) (order : list path)
    (st : RunState) (w : World) : RunState * World :=
  match order with
  | [] => (st, w)
  | p :: r =>
      match find_flat_node p g with
      | Some n =>
          let '(st', w') := exec_node g ov n st w in
          exec_plan g ov r st' w'
      | None => exec_plan g ov r st w
      end
  end.

(** Modelled from the spec: readiness (section 3).  Every required input
    of a tool node is bound by a literal, an override or an inbound
    edge. *)
Definition input_resolved (g : FlatGraph) (ov : Overrides) (n : FlatNode)
    (k : string) : bool :=
  match lookup_binding k (iface_inputs (node_interface (fn_node n))) with
  | Some _ => true
  | None =>
      existsb (fun '(q, k', _) =>
                 bool_decide (q = fn_path n) && String.eqb k' k) ov
      || existsb (fun e => bool_decide (fe_dst e = fn_path n)
                           && String.eqb (fe_in e) k) (fg_edges g)
  end.

Definition unresolved_input (g : FlatGraph) (ov : Overrides) (n : FlatNode)
    : option string :=
  match iface_kind (node_interface (fn_node n)) with
  | IdentityInterface _ => None
  | External t =>
      fst <$> find (fun d => snd (snd d) && negb (input_resolved g ov n (fst d)))
                   (d_inputs (descriptor t))
  end.

Fixpoint check_ready (g : FlatGraph) (ov : Overrides) (ns : list FlatNode)
    : result unit :=
  match ns with
  | [] => OK tt
  | n :: r =>
      match unresolved_input g ov n with
      | Some k => Error (NotReady (fn_path n) k)
      | None => check_ready g ov r
      end
  end.

(** Modelled from the spec: the result payload of section 6.  The run is
    a [Success] only if every planned node completed or was a cache hit. *)
Definition report (order : list path) (st : RunState) : RunReport :=
  let sts := map (fun p => (p, rs_status st !! p)) order in
  mkRunReport
    (if forallb (fun x => match snd x with
                          | Some s => succeeded s
                          | None => false
                          end) sts
     then Success else PartialFailure)
    (rs_outputs st)
    (omap (fun x => match snd x with
                    | Some (Failed msg) => Some (fst x, msg)
                    | _ => None
                    end) sts)
    (omap (fun x => match snd x with
                    | Some Blocked => Some (fst x)
                    | _ => None
                    end) sts)
    sts.

(** Modelled from the spec: [run(graph, literal_overrides)] of section
    4.3.  Planning and readiness are checked once, at the start; then the
    planned order is walked.  The engine's executor is not under src/. *)
Definition run (wf : Workflow) (ov : Overrides) : M RunReport :=
  fun w =>
    match plan wf with
    | Error e => (Error e, w)
    | OK (g, order) =>
        match check_ready g ov (fg_nodes g) with
        | Error e => (Error e, w)
        | OK _ =>
            let '(st, w') := exec_plan g ov order initial_state w in
            (OK (report order st), w')
        end
    end.

End Executor.

(** Two run states agree when they hold the same outputs and the same
    nodes have succeeded. *)
Definition agree (st st2 : RunState) : Prop :=
  rs_outputs st2 = rs_outputs st
  ∧ ∀ q, succeeded <$> rs_status st2 !! q = succeeded <$> rs_status st !! q.

(** ** Graph notions used by the statements *)

Section Reachability.

Context {A : Type} `{EqDecision A}.

(** [reaches E a b]: there is a non-empty path from [a] to [b]. *)
Inductive reaches (E : list (A * A)) : A -> A -> Prop :=
  | reaches_edge a b : (a, b) ∈ E -> reaches E a b
  | reaches_step a b c : (a, b) ∈ E -> reaches E b c -> reaches E a c.

Definition acyclic (E : list (A * A)) : Prop := ∀ a, ¬ reaches E a a.


Fixpoint index_of (x : A) (l : list A) : option nat :=
  match l with
  | [] => None
  | y :: r => if bool_decide (y = x) then Some O else S <$> index_of x r
  end.

Definition beforeb (order : list A) (a b : A) : bool :=
  match index_of a order, index_of b order with
  | Some i, Some j => (i <? j)%nat
  | _, _ => false
  end.

(** The nodes reached from [frontier] in at most [fuel] rounds. *)
Fixpoint descendants (fuel : nat) (E : list (A * A)) (frontier : list A)
    : list A :=
  match fuel with
  | O => []
  | S f =>
      let next := map snd (filter (fun e => fst e ∈ frontier) E) in
      next ++ descendants f E next
  end.

(** Every edge of [E] goes forward in [order]. *)
Definition respectsb (order : list A) (E : list (A * A)) : bool :=
  forallb (fun e => beforeb order (fst e) (snd e)) E.

End Reachability.

(** The graph induced by a workflow over its members and connections. *)
Definition member_edges (w : Workflow) : list (string * string) :=
  map (fun c => (src c, dst c)) (wf_connections w).



(** [depends_on w b a]: member [b] transitively depends on member [a]
    through the declared connections of [w]. *)
Definition depends_on (w : Workflow) (b a : string) : Prop :=
  reaches (member_edges w) a b.

(** The destination slot of a connection. *)
Definition slot (c : Connection) : string * string := (dst c, dst_in c).

Definition inbound (w : Workflow) (member port : string) : list Connection :=
  filter (fun c => slot c = (member, port)) (wf_connections w).

(** The members whose outputs feed member [n]. *)
Definition feeders (w : Workflow) (n : string) : list string :=
  map src (filter (fun c => dst c = n) (wf_connections w)).

(** No ordering dependency between any two distinct feeders of [n]. *)
Definition branches_independent (w : Workflow) (n : string) : Prop :=
  ∀ a b, a ∈ feeders w n -> b ∈ feeders w n -> a ≠ b -> ¬ depends_on w b a.

(** The name of the node an endpoint [(member, port)] denotes. *)
Definition endpoint_node (member port : string) : string :=
  List.last (fst (endpoint member port)) "".

Definition names_boundary (member port : string) : bool :=
  bool_decide (endpoint_node member port ∈ ["inputnode"; "outputnode"]).

Definition duplicate_input_failure {A : Type} (r : result A) : bool :=
  match r with
  | Error (DuplicateInput _ _) => true
  | _ => false
  end.


Definition unknown_boundary_port_failure {A : Type} (r : result A) : bool :=
  match r with
  | Error (UnknownPort m p) => names_boundary m p
  | _ => false
  end.

(** A port of a pass-through node exists when it is one of its fields. *)
Definition field_declared (m : Member) (port : string) : bool :=
  match locate_port m port with
  | Some (n, p) =>
      match iface_kind (node_interface n) with
      | IdentityInterface fs => bool_decide (p ∈ fs)
      | External _ => false
      end
  | None => false
  end.

(** The fields of the pass-through node [name] of [w]. *)
Definition fields_of (w : Workflow) (name : string) : option (list string) :=
  match find_node name w with
  | Some n => match iface_kind (node_interface n) with
              | IdentityInterface fs => Some fs
              | External _ => None
              end
  | None => None
  end.

(** The literal bound on input [k] of node [name] of [w], if any. *)
Definition literal_input (w : Workflow) (name k : string) : option literal :=
  n ← find_node name w; lookup_binding k (iface_inputs (node_interface n)).

Definition is_subworkflow (m : Member) : bool :=
  match m with
  | MNode _ => false
  | MWorkflow _ => true
  end.

(** The workflow a builder call returns on the engine instance
    [used_ports] when every name is accepted. *)
Definition declared (c : BuilderCall) : Workflow :=
  match fst (build used_ports any_name c empty_world) with
  | OK w => w
  | Error _ => empty_workflow ""
  end.

(** An endpoint of [w] resolves to a node, and when that node is a
    pass-through node the port is one of its fields. *)
Definition boundary_port_exists (w : Workflow) (member port : string) : bool :=
  match find_member member (wf_members w) with
  | Some m =>
      match locate_port m port with
      | Some (n, p) =>
          match iface_kind (node_interface n) with
          | IdentityInterface fs => bool_decide (p ∈ fs)
          | External _ => true
          end
      | None => false
      end
  | None => false
  end.

(** Every requested endpoint that names a boundary node names one of its
    declared fields. *)
Definition boundary_endpoints_declared (es : list Edge) : bool :=
  forallb (fun '(s, o, d, i) =>
             implb (names_boundary (member_name s) o) (field_declared s o)
             && implb (names_boundary (member_name d) i) (field_declared d i))
          es.

Definition text_of (v : literal) : string :=
  match v with
  | LStr s => s
  | LFloat s => s
  | LBool _ | LInt _ => "_"
  end.

(** A stand-in for the external programs, used to run the executor on a
    concrete instance: every declared output is a text built from the
    output name and the resolved inputs. *)
Definition sample_execute (t : tool) (inputs : bindings) : outcome :=
  Produced
    (map (fun o =>
            (fst o,
             LStr (fst o ++ "(" ++ String.concat ","
                                     (map (fun b => text_of (snd b)) inputs)
                         ++ ")")))
         (d_outputs (used_ports t))).

(** ** Concrete engine instances *)

Definition is_ok {A : Type} (r : result A) : bool :=
  match r with
  | OK _ => true
  | Error _ => false
  end.

Definition report_of (r : result RunReport) : RunReport :=
  match r with
  | OK x => x
  | Error _ => mkRunReport PartialFailure ∅ [] [] []
  end.

Definition workflow_of (r : result Workflow) : Workflow :=
  match r with
  | OK w => w
  | Error _ => empty_workflow ""
  end.

(** A chain A -> B -> C whose first node reads the literal [input]. *)
Definition chain (input : string) : Workflow :=
  let A := mkNode (instantiate ValidateImage [("in_file", LStr input)])
                  "A" None None in
  let B := mkNode (instantiate ValidateImage []) "B" None None in
  let C := mkNode (instantiate ValidateImage []) "C" None None in
  workflow_of
    (fst (connect used_ports (empty_workflow "chain")
            [(A : Member, B : Member, [("out_file", "in_file")]);
             (B : Member, C : Member, [("out_file", "in_file")])]
            empty_world)).

(** A diamond A -> {B, C} -> D. *)
Definition diamond : Workflow :=
  let A := mkNode (instantiate ValidateImage [("in_file", LStr "a.nii")])
                  "A" None None in
  let B := mkNode (instantiate BET []) "B" None None in
  let C := mkNode (instantiate Automask []) "C" None None in
  let D := mkNode (instantiate BinaryMaths [("operation", LStr "mul")])
                  "D" None None in
  workflow_of
    (fst (connect used_ports (empty_workflow "diamond")
            [(A : Member, B : Member, [("out_file", "in_file")]);
             (A : Member, C : Member, [("out_file", "in_file")]);
             (B : Member, D : Member, [("mask_file", "in_file")]);
             (C : Member, D : Member, [("out_file", "operand_file")])]
            empty_world)).

(** External programs of which BET fails. *)
Definition failing_bet (t : tool) (inputs : bindings) : outcome :=
  match t with
  | BET => ExecutionFailed "bet failed"
  | _ => sample_execute t inputs
  end.

(** A two-node graph behind one input and one output boundary, embedded
    between an upstream and a downstream node. *)
Definition embedding : Workflow :=
  let inner_in := mkNode (niu_IdentityInterface ["in_file"])
                         "inputnode" None None in
  let inner_out := mkNode (niu_IdentityInterface ["out_file"])
                          "outputnode" None None in
  let X := mkNode (instantiate ValidateImage []) "X" None None in
  let Y := mkNode (instantiate ValidateImage []) "Y" None None in
  let inner :=
    workflow_of
      (fst (connect used_ports (empty_workflow "inner")
              [(inner_in : Member, X : Member, [("in_file", "in_file")]);
               (X : Member, Y : Member, [("out_file", "in_file")]);
               (Y : Member, inner_out : Member, [("out_file", "out_file")])]
              empty_world)) in
  let U := mkNode (instantiate ValidateImage [("in_file", LStr "u.nii")])
                  "U" None None in
  let D := mkNode (instantiate ValidateImage []) "D" None None in
  workflow_of
    (fst (connect used_ports (empty_workflow "outer")
            [(U : Member, MWorkflow inner, [("out_file", "inputnode.in_file")]);
             (MWorkflow inner, D : Member,
                [("outputnode.out_file", "in_file")])]
            empty_world)).

(** A graph with a cycle b -> c -> b behind a node a. *)
Definition cyclic_graph : FlatGraph :=
  let n := fun name => mkFlatNode [name]
                         (mkNode (instantiate ValidateImage []) name None None)
  in
  mkFlatGraph [n "a"; n "b"; n "c"]
              [mkFlatEdge ["a"] "out_file" ["b"] "in_file";
               mkFlatEdge ["b"] "out_file" ["c"] "in_file";
               mkFlatEdge ["c"] "out_report" ["b"] "in_file"].

(** The skull-stripping workflow run on one input image. *)
Definition sample_overrides : Overrides :=
  [(["inputnode"], "in_file", LStr "bold.nii")].

Definition sample_run (w : World) : result RunReport * World :=
  run used_ports sample_execute (declared (Skullstrip "skullstrip_bold_wf"))
      sample_overrides w.

(** ** Notions used by the further statements *)

Definition member_names (w : Workflow) : list string :=
  map member_name (wf_members w).

(** A workflow and all the workflows nested in it. *)
Fixpoint all_workflows (w : Workflow) : list Workflow :=
  match w with
  | mkWorkflow _ ms _ =>
      w :: (fix go (l : list Member) : list Workflow :=
              match l with
              | [] => []
              | MNode _ :: r => go r
              | MWorkflow s :: r => all_workflows s ++ go r
              end) ms
  end.

(** [m] carries a name that another member of [ms] already has. *)
Definition clashes (m : Member) (ms : list Member) : bool :=
  match find_member (member_name m) ms with
  | Some m' => negb (Member_eqb m' m)
  | None => false
  end.

(** Some requested edge mentions a member whose name is taken by another
    member. *)
Fixpoint name_clash (w : Workflow) (es : list Edge) : bool :=
  match es with
  | [] => false
  | e :: r =>
      let '(s, _, d, _) := e in
      clashes s (wf_members w)
      || clashes d (add_absent s (wf_members w))
      || name_clash (declare1 w e) r
  end.

(** The connections of [w] with their endpoints resolved to members. *)
Definition resolved_edges (w : Workflow) : list (option Edge) :=
  map (fun cn =>
         s ← find_member (src cn) (wf_members w);
         d ← find_member (dst cn) (wf_members w);
         Some (s, src_out cn, d, dst_in cn))
      (wf_connections w).

(** Both ports of an edge are declared and their types are compatible. *)
Definition ports_ok (descriptor : tool -> Descriptor) (e : Edge) : bool :=
  let '(s, o, d, i) := e in
  match source_port descriptor s o, dest_port descriptor d i with
  | Some to, Some ti => compatible to ti
  | _, _ => false
  end.

(** The descriptor table declares, with compatible types, every port the
    connections of [w] name. *)
Definition adequate (descriptor : tool -> Descriptor) (w : Workflow) : bool :=
  forallb (fun oe => match oe with
                     | Some e => ports_ok descriptor e
                     | None => false
                     end) (resolved_edges w).

Definition adequate_all (descriptor : tool -> Descriptor) (w : Workflow)
    : bool :=
  forallb (adequate descriptor) (all_workflows w).

(** Connections leaving output [port] of [member]. *)
Definition outbound (w : Workflow) (member port : string) : list Connection :=
  filter (fun c => (src c, src_out c) = (member, port)) (wf_connections w).

Definition has_inbound (w : Workflow) (n : string) : bool :=
  existsb (fun c => String.eqb (dst c) n) (wf_connections w).

Definition has_outbound (w : Workflow) (n : string) : bool :=
  existsb (fun c => String.eqb (src c) n) (wf_connections w).

(** The literal bound on the input an endpoint [(member, port)] denotes. *)
Definition endpoint_literal (w : Workflow) (member port : string)
    : option literal :=
  m ← find_member member (wf_members w);
  '(n, p) ← locate_port m port;
  lookup_binding p (iface_inputs (node_interface n)).

(** [S] contains every predecessor of its elements. *)
Definition predecessor_closed {A : Type} `{EqDecision A}
    (E : list (A * A)) (S : list A) : bool :=
  forallb (fun e => implb (bool_decide (snd e ∈ S)) (bool_decide (fst e ∈ S)))
          E.

(** The nodes of [w] that wrap tool [t]. *)
Definition nodes_wrapping (t : tool) (w : Workflow) : list Node :=
  omap (fun m => match m with
                 | MNode n =>
                     if bool_decide (iface_kind (node_interface n) = External t)
                     then Some n else None
                 | MWorkflow _ => None
                 end) (wf_members w).

(** The [name] argument of a builder call. *)
Definition call_name (c : BuilderCall) : string :=
  match c with
  | BoldReference _ _ name => name
  | EnhanceAndSkullstrip name _ => name
  | Skullstrip name => name
  end.

(** The edges a builder call requests, recovered from the workflow it
    returns. *)
Definition requested_edges (c : BuilderCall) : list Edge :=
  omap id (resolved_edges (declared c)).

(** The node and field an endpoint [(member, port)] of [w] denotes. *)
Definition resolve_endpoint (w : Workflow) (member port : string)
    : option (Node * string) :=
  m ← find_member member (wf_members w); locate_port m port.

(** The endpoint denotes an input on which no literal is bound. *)
Definition input_unbound (w : Workflow) (member port : string) : bool :=
  match resolve_endpoint w member port with
  | Some (n, p) =>
      bool_decide (lookup_binding p (iface_inputs (node_interface n)) = None)
  | None => false
  end.

(** The same builder call under another [name]. *)
Definition rename (c : BuilderCall) (name : string) : BuilderCall :=
  match c with
  | BoldReference omp bold_file _ => BoldReference omp bold_file name
  | EnhanceAndSkullstrip _ omp => EnhanceAndSkullstrip name omp
  | Skullstrip _ => Skullstrip name
  end.

(** Every member of [w] other than [a] is reached from [a], and every
    member other than [z] reaches [z], within [fuel] rounds. *)
Definition on_path_check (fuel : nat) (w : Workflow) (a z : string) : bool :=
  forallb (fun m =>
             (bool_decide (m = a)
              || bool_decide (m ∈ descendants fuel (member_edges w) [a]))
             && (bool_decide (m = z)
                 || bool_decide (z ∈ descendants fuel (member_edges w) [m])))
          (member_names w).

(** The names a builder call hands to [pe.Workflow] and [pe.Node]: the
    name of the workflow, and the names of its members and of the members
    of its nested workflows. *)
Definition constructed_names (w : Workflow) : list string :=
  wf_name w :: flat_map member_names (all_workflows w).

Definition checked_names (c : BuilderCall) : list string :=
  constructed_names (declared c).

(** How a build can end. *)
Definition build_outcome_allowed (valid_name : string -> bool)
    (c : BuilderCall) (r : result Workflow) : Prop :=
  match r with
  | OK wf => wf = declared c
  | Error (InvalidName n) => n ∈ checked_names c ∧ valid_name n = false
  | Error (UnknownPort m p) => names_boundary m p = false
  | Error (TypeMismatch _ _) => True
  | Error _ => False
  end.

(** * Properties *)

(** ** The graph builder *)

(** The member comparison used by [add_member] decides equality. *)
Lemma Workflow_eqb_eq : ∀ a b, Workflow_eqb a b = true -> a = b
with Member_eqb_eq : ∀ a b, Member_eqb a b = true -> a = b.
Proof.
  - intros [n1 ms1 cs1] [n2 ms2 cs2]. cbn.
    intros H. apply andb_true_iff in H as [H Hcs].
    apply andb_true_iff in H as [Hn Hms].
    apply String.eqb_eq in Hn. apply bool_decide_eq_true in Hcs. subst.
    f_equal. revert ms2 Hms.
    induction ms1 as [|x r1 IH]; intros [|y r2] Hms; try done.
    apply andb_true_iff in Hms as [Hxy Hr].
    f_equal; [by apply Member_eqb_eq|by apply IH].
  - intros [n1|w1] [n2|w2]; cbn; try done.
    + by intros ->%bool_decide_eq_true.
    + intros H. f_equal. by apply Workflow_eqb_eq.
Qed.

Lemma Workflow_eqb_refl : ∀ a, Workflow_eqb a a = true
with Member_eqb_refl : ∀ a, Member_eqb a a = true.
Proof.
  - intros [n ms cs]. cbn.
    rewrite String.eqb_refl, bool_decide_eq_true_2 by done.
    rewrite andb_true_r. cbn.
    induction ms as [|x r IH]; [done|].
    by rewrite Member_eqb_refl, IH.
  - intros [n|w]; cbn.
    + by rewrite bool_decide_eq_true_2.
    + apply Workflow_eqb_refl.
Qed.

Section BuilderFacts.

Variable descriptor : tool -> Descriptor.

Lemma add_member_ok m ms ms' :
  add_member m ms = OK ms' -> ms' = add_absent m ms.
Proof.
  unfold add_member, add_absent.
  destruct (find_member (member_name m) ms) as [m'|]; [|congruence].
  destruct (Member_eqb m' m); congruence.
Qed.

Lemma connect1_ok w e w' :
  connect1 descriptor w e = OK w' -> w' = declare1 w e.
Proof.
  destruct e as [[[s o] d] i]. unfold connect1, declare1.
  destruct (add_member s (wf_members w)) as [ms1|] eqn:E1; [|discriminate].
  apply add_member_ok in E1. subst ms1. cbn.
  destruct (add_member d _) as [ms2|] eqn:E2; [|discriminate].
  apply add_member_ok in E2. subst ms2. cbn.
  destruct (source_port descriptor s o); [|discriminate].
  destruct (dest_port descriptor d i); [|discriminate].
  destruct (negb _); [discriminate|].
  destruct (already_connected _ _ _); [discriminate|].
  by intros [= <-].
Qed.

Lemma connect_all_ok es : ∀ w w',
  connect_all descriptor w es = OK w' -> w' = declare w es.
Proof.
  induction es as [|e r IH]; intros w w' H; cbn in H.
  - by injection H as <-.
  - destruct (connect1 descriptor w e) as [w1|] eqn:E; [|discriminate].
    apply connect1_ok in E. subst w1. cbn in H. apply IH in H. exact H.
Qed.

Lemma declare_connections es : ∀ w,
  wf_connections (declare w es)
  = wf_connections w ++ map edge_connection es.
Proof.
  induction es as [|e r IH]; intros w; cbn.
  - by rewrite app_nil_r.
  - unfold declare in IH. rewrite IH.
    destruct e as [[[s o] d] i]. cbn. by rewrite <- app_assoc.
Qed.

Lemma already_connected_slot m p cs :
  already_connected m p cs = true -> (m, p) ∈ map slot cs.
Proof.
  unfold already_connected. rewrite existsb_exists.
  intros (c & Hc & Hb). apply andb_true_iff in Hb as [H1 H2].
  apply String.eqb_eq in H1, H2. subst.
  apply list_elem_of_In, in_map_iff. by exists c.
Qed.

Lemma connect1_duplicate w e m p :
  connect1 descriptor w e = Error (DuplicateInput m p) ->
  (m, p) ∈ map slot (wf_connections w) ∧ slot (edge_connection e) = (m, p).
Proof.
  destruct e as [[[s o] d] i]. unfold connect1.
  destruct (add_member s (wf_members w)) as [ms1|e1] eqn:E1; cbn.
  2:{ unfold add_member in E1. destruct (find_member _ _); [|discriminate].
      destruct (Member_eqb _ _); [discriminate|]. congruence. }
  destruct (add_member d ms1) as [ms2|e2] eqn:E2; cbn.
  2:{ unfold add_member in E2. destruct (find_member _ _); [|discriminate].
      destruct (Member_eqb _ _); [discriminate|]. congruence. }
  destruct (source_port descriptor s o); [|discriminate].
  destruct (dest_port descriptor d i); [|discriminate].
  destruct (negb _); [discriminate|].
  destruct (already_connected _ _ _) eqn:Ha; [|discriminate].
  intros [= <- <-]. split; [by apply already_connected_slot|done].
Qed.

(** A [DuplicateInput] refusal means two requested or existing edges
    share a destination slot. *)
Lemma connect_all_duplicate es : ∀ w m p,
  connect_all descriptor w es = Error (DuplicateInput m p) ->
  ¬ NoDup (map slot (wf_connections w ++ map edge_connection es)).
Proof.
  induction es as [|e r IH]; intros w m p H; cbn in H; [discriminate|].
  destruct (connect1 descriptor w e) as [w1|e1] eqn:E; cbn in H.
  - pose proof (connect1_ok _ _ _ E) as ->.
    apply IH in H. intros Hnd. apply H.
    destruct e as [[[s o] d] i]. cbn in *.
    by rewrite <- app_assoc.
  - injection H as ->. apply connect1_duplicate in E as [Hin Hs].
    rewrite map_app. cbn [map]. rewrite Hs.
    intros Hnd. apply NoDup_app in Hnd as (_ & Hd & _).
    apply (Hd _ Hin). left.
Qed.

Lemma connect1_unknown w e m p :
  connect1 descriptor w e = Error (UnknownPort m p) ->
  let '(s, o, d, i) := e in
  (m = member_name s ∧ p = o ∧ source_port descriptor s o = None)
  ∨ (m = member_name d ∧ p = i ∧ dest_port descriptor d i = None).
Proof.
  destruct e as [[[s o] d] i]. unfold connect1.
  destruct (add_member s (wf_members w)) as [ms1|e1] eqn:E1; cbn.
  2:{ unfold add_member in E1. destruct (find_member _ _); [|discriminate].
      destruct (Member_eqb _ _); [discriminate|]. congruence. }
  destruct (add_member d ms1) as [ms2|e2] eqn:E2; cbn.
  2:{ unfold add_member in E2. destruct (find_member _ _); [|discriminate].
      destruct (Member_eqb _ _); [discriminate|]. congruence. }
  destruct (source_port descriptor s o) eqn:Es.
  2:{ intros [= <- <-]. by left. }
  destruct (dest_port descriptor d i) eqn:Ed.
  2:{ intros [= <- <-]. by right. }
  destruct (negb _); [discriminate|].
  destruct (already_connected _ _ _); discriminate.
Qed.

(** An [UnknownPort] refusal names an endpoint of a requested edge whose
    port the interface does not declare. *)
Lemma connect_all_unknown es : ∀ w m p,
  connect_all descriptor w es = Error (UnknownPort m p) ->
  Exists (fun '(s, o, d, i) =>
            (m = member_name s ∧ p = o ∧ source_port descriptor s o = None)
            ∨ (m = member_name d ∧ p = i ∧ dest_port descriptor d i = None))
         es.
Proof.
  induction es as [|e r IH]; intros w m p H; cbn in H; [discriminate|].
  destruct (connect1 descriptor w e) as [w1|e1] eqn:E; cbn in H.
  - apply Exists_cons_tl. by eapply IH.
  - injection H as ->. apply Exists_cons_hd.
    apply connect1_unknown in E. by destruct e as [[[s o] d] i].
Qed.

(** A declared field of a pass-through node is a known port whatever
    the tool descriptors are. *)
Lemma field_declared_source m port :
  field_declared m port = true -> source_port descriptor m port ≠ None.
Proof.
  unfold field_declared, source_port.
  destruct (locate_port m port) as [[n p]|]; [|discriminate]. cbn.
  unfold output_type.
  destruct (iface_kind (node_interface n)); [|discriminate].
  intros ->. discriminate.
Qed.

Lemma field_declared_dest m port :
  field_declared m port = true -> dest_port descriptor m port ≠ None.
Proof.
  unfold field_declared, dest_port.
  destruct (locate_port m port) as [[n p]|]; [|discriminate]. cbn.
  unfold input_type.
  destruct (iface_kind (node_interface n)); [|discriminate].
  intros ->. discriminate.
Qed.

End BuilderFacts.

(** ** Orders and reachability *)

Section ReachabilityFacts.

Context {A : Type} `{EqDecision A}.
Implicit Types (E : list (A * A)) (order : list A).

Lemma reaches_trans E a b c :
  reaches E a b -> reaches E b c -> reaches E a c.
Proof.
  induction 1 as [a b Hab|a b b' Hab _ IH]; intros Hc.
  - by eapply reaches_step.
  - eapply reaches_step; [done|]. by apply IH.
Qed.




(** A graph whose edges all go forward in some list has no cycle. *)
Lemma respectsb_acyclic order E : respectsb order E = true -> acyclic E.
Proof.
  unfold respectsb. rewrite forallb_forall. intros Hall.
  assert (Hrank : ∀ a b, reaches E a b ->
            ∃ i j, index_of a order = Some i ∧ index_of b order = Some j
                   ∧ (i < j)%nat).
  { induction 1 as [a b Hab|a b c Hab _ IH].
    - apply list_elem_of_In, Hall in Hab. unfold beforeb in Hab. cbn in Hab.
      destruct (index_of a order) as [i|]; [|done].
      destruct (index_of b order) as [j|]; [|done].
      exists i, j. repeat split. by apply Nat.ltb_lt.
    - apply list_elem_of_In, Hall in Hab. unfold beforeb in Hab. cbn in Hab.
      destruct IH as (j & k & Hj & Hk & Hjk).
      destruct (index_of a order) as [i|]; [|done].
      rewrite Hj in Hab. apply Nat.ltb_lt in Hab.
      exists i, k. repeat split; [done|lia]. }
  intros a Ha. destruct (Hrank _ _ Ha) as (i & j & Hi & Hj & Hlt).
  rewrite Hi in Hj. injection Hj as ->. lia.
Qed.

Lemma descendants_sound E fuel : ∀ frontier b,
  b ∈ descendants fuel E frontier -> ∃ a, a ∈ frontier ∧ reaches E a b.
Proof.
  induction fuel as [|f IH]; intros frontier b; cbn.
  - by intros ?%elem_of_nil.
  - rewrite elem_of_app. intros [Hb|Hb].
    + apply list_elem_of_fmap in Hb as ([a b'] & -> & He).
      apply list_elem_of_filter in He as [Ha He]. cbn in *.
      exists a. split; [done|]. by apply reaches_edge.
    + apply IH in Hb as (m & Hm & Hr).
      apply list_elem_of_fmap in Hm as ([a m'] & -> & He).
      apply list_elem_of_filter in He as [Ha He]. cbn in *.
      exists a. split; [done|]. by eapply reaches_step.
Qed.

Lemma descendants_reaches E fuel a b :
  bool_decide (b ∈ descendants fuel E [a]) = true -> reaches E a b.
Proof.
  intros Hb%bool_decide_eq_true.
  apply descendants_sound in Hb as (a' & Ha & Hr).
  apply list_elem_of_singleton in Ha. by subst.
Qed.

End ReachabilityFacts.

(** ** The planner *)

Lemma topological_order_picks fuel edges : ∀ pending done order,
  topological_order fuel edges pending done = OK order ->
  ∃ picked, order = done ++ picked ∧ NoDup picked ∧ picked ⊆ pending.
Proof.
  induction fuel as [|f IH]; intros pending done order H.
  - destruct pending; cbn in H; [|discriminate].
    injection H as <-. exists []. rewrite app_nil_r.
    repeat split; [constructor|set_solver].
  - destruct pending as [|q pending']; cbn [topological_order] in H.
    { injection H as <-. exists []. rewrite app_nil_r.
      repeat split; [constructor|set_solver]. }
    destruct (find _ _) as [p|] eqn:Hf; [|discriminate].
    apply IH in H as (picked & -> & Hnd & Hsub).
    apply find_some in Hf as [Hin _]. apply list_elem_of_In in Hin.
    exists (p :: picked). rewrite <- app_assoc. repeat split.
    + apply NoDup_cons. split; [|done].
      intros Hp. apply Hsub, list_elem_of_filter in Hp as [Hne _]. done.
    + intros x [->|Hx]%elem_of_cons; [done|].
      by apply Hsub, list_elem_of_filter in Hx as [_ Hx].
Qed.

(** A planned order lists no node twice. *)
Lemma plan_NoDup wf g order : plan wf = OK (g, order) -> NoDup order.
Proof.
  unfold plan, plan_flat. cbn.
  destruct (topological_order _ _ _ _) as [o|] eqn:E; [|discriminate].
  intros [= <- <-]. apply topological_order_picks in E as (picked & -> & Hnd & _).
  done.
Qed.

(** ** The executor *)

Section ExecutorFacts.

Variable descriptor : tool -> Descriptor.
Variable execute : tool -> bindings -> outcome.

Lemma find_flat_node_path p g n :
  find_flat_node p g = Some n -> fn_path n = p.
Proof.
  unfold find_flat_node. intros [_ Hb]%find_some.
  by apply bool_decide_eq_true in Hb.
Qed.

Lemma record_status_eq p s o st : rs_status (record p s o st) !! p = Some s.
Proof. cbn. apply lookup_insert_eq. Qed.

Lemma record_status_ne p q s o st :
  p ≠ q -> rs_status (record p s o st) !! q = rs_status st !! q.
Proof. intros. cbn. by apply lookup_insert_ne. Qed.

Lemma exec_node_status_other g ov n st w q :
  q ≠ fn_path n ->
  rs_status (fst (exec_node execute g ov n st w)) !! q = rs_status st !! q.
Proof.
  intros Hq. unfold exec_node.
  destruct (upstream_failed _ _ _); [by apply record_status_ne|].
  destruct (cache w !! _); [by apply record_status_ne|].
  destruct (dispatch _ _ _); by apply record_status_ne.
Qed.

Lemma exec_plan_status_other g ov order : ∀ st w q,
  q ∉ order ->
  rs_status (fst (exec_plan execute g ov order st w)) !! q
  = rs_status st !! q.
Proof.
  induction order as [|p r IH]; intros st w q Hq; [done|].
  apply not_elem_of_cons in Hq as [Hne Hq]. cbn.
  destruct (find_flat_node p g) as [n|] eqn:Hf; [|by apply IH].
  destruct (exec_node execute g ov n st w) as [st1 w1] eqn:He.
  rewrite IH by done.
  change st1 with (fst (st1, w1)). rewrite <- He.
  apply exec_node_status_other.
  by rewrite (find_flat_node_path _ _ _ Hf).
Qed.

(** The cache only grows. *)
Lemma exec_node_cache_mono g ov n st w :
  cache w ⊆ cache (snd (exec_node execute g ov n st w)).
Proof.
  unfold exec_node.
  destruct (upstream_failed _ _ _); [done|].
  destruct (cache w !! _) eqn:Hc; [done|].
  destruct (dispatch _ _ _); [|done].
  cbn. by apply insert_subseteq.
Qed.

Lemma exec_plan_cache_mono g ov order : ∀ st w,
  cache w ⊆ cache (snd (exec_plan execute g ov order st w)).
Proof.
  induction order as [|p r IH]; intros st w; [done|]. cbn.
  destruct (find_flat_node p g) as [n|]; [|by apply IH].
  destruct (exec_node execute g ov n st w) as [st1 w1] eqn:He.
  etrans; [|apply IH].
  change w1 with (snd (st1, w1)). rewrite <- He.
  apply exec_node_cache_mono.
Qed.

Lemma upstream_failed_agree g st st2 p :
  agree st st2 -> upstream_failed g st2 p = upstream_failed g st p.
Proof.
  intros [_ Hs]. unfold upstream_failed.
  induction (fg_edges g) as [|e r IH]; [done|]. cbn. rewrite IH. f_equal.
  f_equal. specialize (Hs (fe_src e)).
  destruct (rs_status st2 !! fe_src e), (rs_status st !! fe_src e);
    cbn in Hs; try done.
  by injection Hs as ->.
Qed.

Lemma resolve_inputs_agree g ov st st2 n :
  agree st st2 -> resolve_inputs g ov st2 n = resolve_inputs g ov st n.
Proof. intros [Ho _]. unfold resolve_inputs. by rewrite Ho. Qed.

Lemma agree_record p s s2 o st st2 :
  succeeded s2 = succeeded s -> agree st st2 ->
  agree (record p s o st) (record p s2 o st2).
Proof.
  intros Hs [Ho Hst]. split.
  - cbn. by rewrite Ho.
  - intros q. cbn. destruct (decide (p = q)) as [->|Hne].
    + rewrite !lookup_insert_eq. cbn. by rewrite Hs.
    + rewrite !lookup_insert_ne by done. apply Hst.
Qed.

(** Replaying a plan whose every node succeeded, from a cache that holds
    what the first walk stored: every node is a cache hit, the outputs
    are the same and the engine state does not move. *)
Lemma exec_plan_replay g ov order : NoDup order ->
  ∀ st w st' w' st2 w2,
    exec_plan execute g ov order st w = (st', w') ->
    (∀ p, p ∈ order -> rs_status st !! p = None) ->
    (∀ p, p ∈ order ->
          ∃ s, rs_status st' !! p = Some s ∧ succeeded s = true) ->
    agree st st2 ->
    cache w' ⊆ cache w2 ->
    ∃ st2', exec_plan execute g ov order st2 w2 = (st2', w2)
            ∧ agree st' st2'
            ∧ ∀ p, p ∈ order -> rs_status st2' !! p = Some CacheHit.
Proof.
  induction 1 as [|p r Hnotin Hnd IH];
    intros st w st' w' st2 w2 Hrun Hfresh Hsucc Hagree Hsub.
  - cbn in Hrun. injection Hrun as <- <-. exists st2.
    repeat split; [apply Hagree..|]. by intros p ?%elem_of_nil.
  - cbn in Hrun. cbn [exec_plan].
    pose proof (Hsucc p ltac:(left)) as (s & Hs & Hok).
    destruct (find_flat_node p g) as [n|] eqn:Hf.
    2:{ pose proof (exec_plan_status_other g ov r st w p Hnotin) as Hfr.
        rewrite Hrun in Hfr. cbn in Hfr.
        rewrite Hfresh in Hfr by left. congruence. }
    pose proof (find_flat_node_path _ _ _ Hf) as Hp.
    destruct (exec_node execute g ov n st w) as [st1 w1] eqn:He.
    pose proof (exec_plan_status_other g ov r st1 w1 p Hnotin) as Hfr.
    rewrite Hrun in Hfr. cbn in Hfr. rewrite Hs in Hfr.
    pose proof (exec_plan_cache_mono g ov r st1 w1) as Hmono.
    rewrite Hrun in Hmono. cbn in Hmono.
    assert (Hstep : ∃ outs s1,
               st1 = record p s1 (Some outs) st ∧ succeeded s1 = true
               ∧ cache w1 !! (p, iface_kind (node_interface (fn_node n)),
                              resolve_inputs g ov st n) = Some outs
               ∧ upstream_failed g st p = false).
    { unfold exec_node in He. rewrite Hp in He.
      destruct (upstream_failed g st p) eqn:Hu.
      { injection He as <- <-. rewrite record_status_eq in Hfr.
        injection Hfr as Heq. subst s. by cbn in Hok. }
      destruct (cache w !! _) as [outs|] eqn:Hc.
      { injection He as <- <-. by exists outs, CacheHit. }
      destruct (dispatch _ _ _) as [outs|msg].
      - injection He as <- <-. exists outs, Completed.
        repeat split. cbn. apply lookup_insert_eq.
      - injection He as <- <-. rewrite record_status_eq in Hfr.
        injection Hfr as Heq. subst s. by cbn in Hok. }
    destruct Hstep as (outs & s1 & -> & Hs1 & Hkey & Hu).
    assert (He2 : exec_node execute g ov n st2 w2
                  = (record p CacheHit (Some outs) st2, w2)).
    { unfold exec_node. rewrite Hp.
      rewrite (upstream_failed_agree g st st2 p Hagree), Hu.
      rewrite (resolve_inputs_agree g ov st st2 n Hagree).
      assert (cache w2 !! (p, iface_kind (node_interface (fn_node n)),
                           resolve_inputs g ov st n) = Some outs) as ->; [|done].
      eapply lookup_weaken; [exact Hkey|]. by etrans. }
    rewrite He2.
    destruct (IH (record p s1 (Some outs) st) w1 st' w'
                 (record p CacheHit (Some outs) st2) w2)
      as (st2' & Hrun2 & Hagree2 & Hhits); try done.
    + intros q Hq. rewrite record_status_ne; [apply Hfresh; by right|].
      intros ->. done.
    + intros q Hq. apply Hsucc. by right.
    + apply agree_record; [by rewrite Hs1|done].
    + exists st2'. repeat split; [done|apply Hagree2..|].
      intros q [->|Hq]%elem_of_cons; [|by apply Hhits].
      pose proof (exec_plan_status_other g ov r
                    (record p CacheHit (Some outs) st2) w2 p Hnotin) as Hfr2.
      rewrite Hrun2 in Hfr2. cbn [fst] in Hfr2. rewrite Hfr2.
      apply record_status_eq.
Qed.

End ExecutorFacts.

(** ** The three builders *)

Section NameChecks.

Variable valid_name : string -> bool.

Lemma bind_pe_Workflow {B : Type} name (f : Workflow -> M B) world :
  (pe_Workflow valid_name name ≫= f) world
  = if valid_name name then f (empty_workflow name) world
    else (Error (InvalidName name), world).
Proof. unfold mbind, M_bind, pe_Workflow. by destruct (valid_name name). Qed.

Lemma bind_pe_Node {B : Type} i name mem procs (f : Node -> M B) world :
  (pe_Node valid_name i name mem procs ≫= f) world
  = if valid_name name then f (mkNode i name mem procs) world
    else (Error (InvalidName name), world).
Proof. unfold mbind, M_bind, pe_Node. by destruct (valid_name name). Qed.

End NameChecks.

(** One name check of a builder: either the name is refused and the call
    ends, or the builder goes on. *)
Ltac check_name H :=
  first [rewrite bind_pe_Workflow in H | rewrite bind_pe_Node in H];
  lazymatch type of H with
  | _ = if ?v ?n then _ else _ =>
      let Hn := fresh "Hname" in
      destruct (v n) eqn:Hn; try rewrite Hn in H;
      [| left; exists n; split; [|by split] ]
  end.

Ltac by_membership :=
  solve [repeat first [apply list_elem_of_here | apply list_elem_of_further]].

Ltac accept_names :=
  repeat match goal with
         | H : _ = true |- _ => rewrite H; clear H
         end.

Ltac run_builder :=
  cbv beta iota zeta
      delta [build init_bold_reference_wf init_enhance_and_skullstrip_bold_wf
             init_skullstrip_bold_wf mbind M_bind pe_Workflow pe_Node
             any_name connect].

Section WorkflowFacts.

Variable descriptor : tool -> Descriptor.
Variable valid_name : string -> bool.

Lemma checked_names_eq c :
  checked_names c
  = call_name c
    :: match c with
       | BoldReference _ _ _ =>
           ["inputnode"; "validate"; "gen_ref";
            "enhance_and_skullstrip_bold_wf"; "outputnode"]
           ++ tail (checked_names
                      (EnhanceAndSkullstrip
                         "enhance_and_skullstrip_bold_wf" 1))
       | EnhanceAndSkullstrip _ _ =>
           ["inputnode"; "n4_mask"; "n4_correct"; "fixhdr_unifize";
            "fixhdr_skullstrip2"; "skullstrip_first_pass";
            "skullstrip_first_dilate"; "skullstrip_first_mask"; "unifize";
            "skullstrip_second_pass"; "combine_masks"; "apply_mask";
            "outputnode"]
       | Skullstrip _ =>
           ["inputnode"; "skullstrip_first_pass"; "skullstrip_second_pass";
            "combine_masks"; "outputnode"; "apply_mask"; "mask_reportlet"]
       end.
Proof.
  destruct c as [omp [f|] name|name omp|name]; vm_compute; reflexivity.
Qed.

(** The name checks of a builder call come first: either one of the names
    it constructs is refused and the call ends with that refusal, or every
    name is accepted and the call goes on as under a check that accepts
    every name. *)
Lemma enhance_names name omp world :
  (∃ n, n ∈ checked_names (EnhanceAndSkullstrip name omp)
        ∧ valid_name n = false
        ∧ init_enhance_and_skullstrip_bold_wf descriptor valid_name name omp
            world
          = (Error (InvalidName n), world))
  ∨ (forallb valid_name (checked_names (EnhanceAndSkullstrip name omp)) = true
     ∧ init_enhance_and_skullstrip_bold_wf descriptor valid_name name omp
         world
       = init_enhance_and_skullstrip_bold_wf descriptor any_name name omp
           world).
Proof.
  rewrite checked_names_eq. cbn [call_name].
  remember (init_enhance_and_skullstrip_bold_wf descriptor valid_name name omp
              world) as r eqn:Hr.
  unfold init_enhance_and_skullstrip_bold_wf in Hr.
  do 14 (check_name Hr; [|by_membership]).
  right. split; [cbn [forallb]; accept_names; reflexivity|].
  subst r. reflexivity.
Qed.

Lemma bind_unfold {A B : Type} (m : M A) (f : A -> M B) world :
  (m ≫= f) world
  = match m world with
    | (OK a, w') => f a w'
    | (Error e, w') => (Error e, w')
    end.
Proof. reflexivity. Qed.

Lemma build_names c world :
  (∃ n, n ∈ checked_names c
        ∧ valid_name n = false
        ∧ build descriptor valid_name c world
          = (Error (InvalidName n), world))
  ∨ (forallb valid_name (checked_names c) = true
     ∧ build descriptor valid_name c world
       = build descriptor any_name c world).
Proof.
  destruct c as [omp bf name|name omp|name]; cbn [build].
  - rewrite checked_names_eq. cbn [call_name].
    remember (init_bold_reference_wf descriptor valid_name omp bf name world)
      as r eqn:Hr.
    unfold init_bold_reference_wf in Hr.
    do 3 (check_name Hr; [|by_membership]).
    cbv beta zeta in Hr.
    do 2 (check_name Hr; [|by_membership]).
    rewrite bind_unfold in Hr.
    destruct (enhance_names "enhance_and_skullstrip_bold_wf" omp world)
      as [(n & Hin & Hn & Hsub)|[Hall Hsub]]; rewrite Hsub in Hr.
    + left. exists n. split; [|by split].
      rewrite !checked_names_eq in Hin |- *.
      cbn [call_name tail app] in Hin |- *.
      apply elem_of_cons in Hin as [->|Hin]; [by_membership|].
      do 6 apply list_elem_of_further. exact Hin.
    + right. split; [|by subst r].
      rewrite !checked_names_eq in Hall |- *.
      cbn [call_name tail app] in Hall |- *.
      apply forallb_forall. intros x Hx.
      rewrite forallb_forall in Hall.
      repeat (destruct Hx as [<-|Hx];
              [first [assumption
                     | apply Hall;
                       solve [repeat first [left; reflexivity | right]]]|]).
      destruct Hx.
  - exact (enhance_names name omp world).
  - rewrite checked_names_eq. cbn [call_name].
    remember (init_skullstrip_bold_wf descriptor valid_name name world)
      as r eqn:Hr.
    unfold init_skullstrip_bold_wf in Hr.
    do 8 (check_name Hr; [|by_membership]).
    right. split; [cbn [forallb]; accept_names; reflexivity|].
    subst r. reflexivity.
Qed.


Lemma build_returns_accepting c world wf :
  fst (build descriptor any_name c world) = OK wf -> wf = declared c.
Proof.
  destruct c as [omp bf name|name omp|name]; run_builder.
  - destruct (connect_all descriptor _ _) as [sub|] eqn:E; [|discriminate].
    apply connect_all_ok in E. subst sub.
    cbn [fst]. intros H%connect_all_ok. subst wf.
    destruct bf; vm_compute; reflexivity.
  - cbn [fst]. intros H%connect_all_ok. subst wf. vm_compute. reflexivity.
  - cbn [fst]. intros H%connect_all_ok. subst wf. vm_compute. reflexivity.
Qed.

(** The workflow a builder returns does not depend on the tool
    descriptors, on the name check nor on the engine state. *)
Lemma build_returns c world wf :
  fst (build descriptor valid_name c world) = OK wf -> wf = declared c.
Proof.
  destruct (build_names c world) as [(n & _ & _ & ->)|[_ ->]]; [done|].
  apply build_returns_accepting.
Qed.



End WorkflowFacts.




Section RunFacts.

Variable descriptor : tool -> Descriptor.
Variable execute : tool -> bindings -> outcome.

Lemma report_success order st :
  run_status (report order st) = Success ->
  ∀ p, p ∈ order -> ∃ s, rs_status st !! p = Some s ∧ succeeded s = true.
Proof.
  unfold report. cbn.
  destruct (forallb _ _) eqn:Hall; [|discriminate]. intros _ p Hp.
  rewrite forallb_forall in Hall.
  specialize (Hall (p, rs_status st !! p)). cbn in Hall.
  destruct (rs_status st !! p) as [s|] eqn:Hs.
  - exists s. split; [done|]. apply Hall, in_map_iff.
    exists p. rewrite Hs. split; [done|]. by apply list_elem_of_In.
  - assert (false = true); [|done]. apply Hall, in_map_iff.
    exists p. rewrite Hs. split; [done|]. by apply list_elem_of_In.
Qed.

Lemma report_all_hits order st :
  (∀ p, p ∈ order -> rs_status st !! p = Some CacheHit) ->
  run_status (report order st) = Success
  ∧ Forall (fun x => snd x = Some CacheHit) (node_status (report order st))
  ∧ failures (report order st) = []
  ∧ blocked (report order st) = [].
Proof.
  intros Hhits.
  assert (Hsts : map (fun p => (p, rs_status st !! p)) order
                 = map (fun p => (p, Some CacheHit)) order).
  { apply map_ext_in. intros p Hp. f_equal.
    by apply Hhits, list_elem_of_In. }
  unfold report. cbn. rewrite Hsts. clear Hsts Hhits.
  induction order as [|p r (H1 & H2 & H3 & H4)]; [done|].
  cbn. repeat split; try done.
  by constructor.
Qed.

End RunFacts.

(** C2: a run that succeeds (a valid graph, no failing node) is
    idempotent: run again on the engine state it leaves, it returns the same
    outputs, every node is a cache hit, and the engine state -- the cache
    and the record of dispatched units of work -- is unchanged, so the
    second run dispatches nothing. *)
Theorem run_is_idempotent :
  ∀ (descriptor : tool -> Descriptor) (execute : tool -> bindings -> outcome)
    (wf : Workflow) (ov : Overrides) (world world1 : World) (r1 : RunReport),
    run descriptor execute wf ov world = (OK r1, world1) ->
    run_status r1 = Success ->
    ∃ r2,
      run descriptor execute wf ov world1 = (OK r2, world1)
      ∧ outputs r2 = outputs r1
      ∧ run_status r2 = Success
      ∧ Forall (fun x => snd x = Some CacheHit) (node_status r2)
      ∧ dispatched (snd (run descriptor execute wf ov world1))
        = dispatched world1.
Proof.
  intros descriptor execute wf ov world world1 r1 Hrun Hsucc.
  unfold run in *.
  destruct (plan wf) as [[g order]|] eqn:Hplan; [|discriminate].
  destruct (check_ready descriptor g ov (fg_nodes g)); [|discriminate].
  destruct (exec_plan execute g ov order initial_state world)
    as [st w'] eqn:Hexec.
  injection Hrun as <- <-.
  destruct (exec_plan_replay execute g ov order (plan_NoDup _ _ _ Hplan)
              initial_state world st w' initial_state w' Hexec)
    as (st2 & Hrun2 & [Hout _] & Hhits).
  - intros p _. apply lookup_empty.
  - by apply report_success.
  - by split.
  - done.
  - rewrite Hrun2. cbn [snd].
    destruct (report_all_hits order st2 Hhits) as (H1 & H2 & _).
    exists (report order st2). repeat split; try done.
Qed.

(** ** Statements about the three workflows *)

(** Settles a decidable proposition by evaluating its decision. *)
Ltac by_evaluation := apply (bool_decide_unpack _); vm_compute; exact I.

Section ConnectionFacts.

Variable descriptor : tool -> Descriptor.

Lemma NoDup_slots_inputs (cs : list Connection) (n : string) :
  NoDup (map slot cs) ->
  NoDup (map dst_in (filter (fun c => dst c = n) cs)).
Proof.
  induction cs as [|c r IH]; [constructor|].
  rewrite filter_cons. cbn [map].
  rewrite NoDup_cons. intros [Hc Hr].
  destruct (decide (dst c = n)) as [Hd|Hd]; [|by apply IH].
  cbn [map]. apply NoDup_cons. split; [|by apply IH].
  intros Hin. apply Hc.
  apply list_elem_of_fmap in Hin as (c' & Hi & Hc').
  apply list_elem_of_filter in Hc' as [Hd' Hc'].
  apply list_elem_of_fmap. exists c'. split; [|done].
  unfold slot. congruence.
Qed.

Lemma connect_all_no_duplicate w es :
  bool_decide
    (NoDup (map slot (wf_connections w ++ map edge_connection es))) = true ->
  duplicate_input_failure (connect_all descriptor w es) = false.
Proof.
  intros Hnd%bool_decide_eq_true.
  destruct (connect_all descriptor w es) as [|e] eqn:E; [done|].
  destruct e; try done.
  by apply (connect_all_duplicate descriptor) in E.
Qed.

Lemma connect_all_boundary_ports w es :
  boundary_endpoints_declared es = true ->
  unknown_boundary_port_failure (connect_all descriptor w es) = false.
Proof.
  unfold boundary_endpoints_declared. rewrite forallb_forall. intros Hall.
  destruct (connect_all descriptor w es) as [|e] eqn:E; [done|].
  destruct e as [|m p| | | | |]; try done. cbn.
  apply (connect_all_unknown descriptor) in E.
  apply Exists_exists in E as (e & He & Hbad).
  apply list_elem_of_In, Hall in He.
  destruct e as [[[s o] d] i].
  apply andb_true_iff in He as [Hs Hd].
  destruct (names_boundary m p) eqn:Hb; [|done].
  destruct Hbad as [(-> & -> & Hn)|(-> & -> & Hn)].
  - rewrite Hb in Hs. by apply (field_declared_source descriptor) in Hs.
  - rewrite Hb in Hd. by apply (field_declared_dest descriptor) in Hd.
Qed.

End ConnectionFacts.

(** C4: in the connections each builder declares, every (destination
    node, destination input) pair receives at most one connection -- so the
    edges into any one node target distinct input names -- and whatever the
    tool descriptors are, building never fails with DuplicateInput. *)
Theorem no_destination_input_is_connected_twice :
  ∀ (descriptor : tool -> Descriptor) (valid_name : string -> bool)
    (c : BuilderCall) (world : World),
    duplicate_input_failure (fst (build descriptor valid_name c world)) = false
    ∧ ∀ wf, fst (build descriptor valid_name c world) = OK wf ->
        NoDup (map slot (wf_connections wf))
        ∧ ∀ n, NoDup (map dst_in
                        (filter (fun cn => dst cn = n) (wf_connections wf))).
Proof.
  intros descriptor valid_name c world. split.
  - destruct (build_names descriptor valid_name c world)
      as [(n & _ & _ & ->)|[_ ->]]; [done|].
    destruct c as [omp bf name|name omp|name]; run_builder.
    + destruct (connect_all descriptor _ _) as [sub|e] eqn:E.
      * apply connect_all_ok in E. subst sub. cbn [fst].
        apply connect_all_no_duplicate. destruct bf; vm_compute; reflexivity.
      * cbn [fst]. rewrite <- E.
        apply connect_all_no_duplicate. vm_compute. reflexivity.
    + cbn [fst]. apply connect_all_no_duplicate. vm_compute. reflexivity.
    + cbn [fst]. apply connect_all_no_duplicate. vm_compute. reflexivity.
  - intros wf H. apply build_returns in H. subst wf.
    assert (Hnd : NoDup (map slot (wf_connections (declared c)))).
    { destruct c as [omp [f|] name|name omp|name]; by_evaluation. }
    split; [done|]. intros n. by apply NoDup_slots_inputs.
Qed.

(** C5: every port a declared connection names on a pass-through
    boundary node (an inputnode or outputnode) is one of that node's
    declared fields, so whatever the tool descriptors are, building never
    fails with UnknownPort on a boundary endpoint; and each of the seven
    outputnode fields of init_bold_reference_wf is written by exactly one
    connection. *)
Theorem boundary_ports_are_declared :
  ∀ (descriptor : tool -> Descriptor) (valid_name : string -> bool)
    (c : BuilderCall) (world : World),
    unknown_boundary_port_failure (fst (build descriptor valid_name c world))
    = false
    ∧ ∀ wf, fst (build descriptor valid_name c world) = OK wf ->
        Forall (fun cn =>
                  boundary_port_exists wf (src cn) (src_out cn) = true
                  ∧ boundary_port_exists wf (dst cn) (dst_in cn) = true)
               (wf_connections wf)
        ∧ match c with
          | BoldReference _ _ _ =>
              fields_of wf "outputnode"
              = Some ["bold_file"; "raw_ref_image"; "skip_vols"; "ref_image";
                      "ref_image_brain"; "bold_mask"; "validation_report"]
              ∧ Forall (fun f => length (inbound wf "outputnode" f) = 1%nat)
                       ["bold_file"; "raw_ref_image"; "skip_vols";
                        "ref_image"; "ref_image_brain"; "bold_mask";
                        "validation_report"]
          | _ => True
          end.
Proof.
  intros descriptor valid_name c world. split.
  - destruct (build_names descriptor valid_name c world)
      as [(n & _ & _ & ->)|[_ ->]]; [done|].
    destruct c as [omp bf name|name omp|name]; run_builder.
    + destruct (connect_all descriptor _ _) as [sub|e] eqn:E.
      * apply connect_all_ok in E. subst sub. cbn [fst].
        apply connect_all_boundary_ports. destruct bf; vm_compute; reflexivity.
      * cbn [fst]. rewrite <- E.
        apply connect_all_boundary_ports. vm_compute. reflexivity.
    + cbn [fst]. apply connect_all_boundary_ports. vm_compute. reflexivity.
    + cbn [fst]. apply connect_all_boundary_ports. vm_compute. reflexivity.
  - intros wf H. apply build_returns in H. subst wf. split.
    + destruct c as [omp [f|] name|name omp|name]; by_evaluation.
    + destruct c as [omp [f|] name|name omp|name]; try done;
        (split; [vm_compute; reflexivity|by_evaluation]).
Qed.

(** C1, as the code has it: in both workflows combine_masks is fed by
    exactly two nodes, skullstrip_first_pass and the second-pass node
    (fixhdr_skullstrip2, respectively skullstrip_second_pass); the
    second-pass node transitively depends on skullstrip_first_pass through
    the declared connections, and skullstrip_first_pass does not depend on
    the second-pass node. *)
Theorem second_pass_branch_follows_first_pass :
  ∀ (descriptor : tool -> Descriptor) (valid_name : string -> bool)
    (world : World),
    (∀ name omp wf,
        fst (build descriptor valid_name (EnhanceAndSkullstrip name omp) world)
          = OK wf ->
        feeders wf "combine_masks"
        = ["skullstrip_first_pass"; "fixhdr_skullstrip2"]
        ∧ depends_on wf "fixhdr_skullstrip2" "skullstrip_first_pass"
        ∧ ¬ depends_on wf "skullstrip_first_pass" "fixhdr_skullstrip2")
    ∧ (∀ name wf,
          fst (build descriptor valid_name (Skullstrip name) world) = OK wf ->
          feeders wf "combine_masks"
          = ["skullstrip_first_pass"; "skullstrip_second_pass"]
          ∧ depends_on wf "skullstrip_second_pass" "skullstrip_first_pass"
          ∧ ¬ depends_on wf "skullstrip_first_pass" "skullstrip_second_pass").
Proof.
  intros descriptor valid_name world. split.
  - intros name omp wf H. apply build_returns in H. subst wf.
    assert (Hdep : depends_on (declared (EnhanceAndSkullstrip name omp))
                     "fixhdr_skullstrip2" "skullstrip_first_pass").
    { apply (descendants_reaches _ 6). vm_compute. reflexivity. }
    split; [vm_compute; reflexivity|]. split; [done|].
    intros Hback.
    assert (Hac : acyclic
                    (member_edges (declared (EnhanceAndSkullstrip name omp)))).
    { apply (respectsb_acyclic
               ["inputnode"; "n4_mask"; "n4_correct"; "skullstrip_first_pass";
                "skullstrip_first_dilate"; "skullstrip_first_mask"; "unifize";
                "fixhdr_unifize"; "skullstrip_second_pass";
                "fixhdr_skullstrip2"; "combine_masks"; "apply_mask";
                "outputnode"]).
      vm_compute. reflexivity. }
    apply (Hac "skullstrip_first_pass"). by eapply reaches_trans.
  - intros name wf H. apply build_returns in H. subst wf.
    assert (Hdep : depends_on (declared (Skullstrip name))
                     "skullstrip_second_pass" "skullstrip_first_pass").
    { apply (descendants_reaches _ 1). vm_compute. reflexivity. }
    split; [vm_compute; reflexivity|]. split; [done|].
    intros Hback.
    assert (Hac : acyclic (member_edges (declared (Skullstrip name)))).
    { apply (respectsb_acyclic
               ["inputnode"; "skullstrip_first_pass"; "skullstrip_second_pass";
                "combine_masks"; "apply_mask"; "mask_reportlet";
                "outputnode"]).
      vm_compute. reflexivity. }
    apply (Hac "skullstrip_first_pass"). by eapply reaches_trans.
Qed.

(** C1, as stated, fails: in the workflows returned by
    init_enhance_and_skullstrip_bold_wf and init_skullstrip_bold_wf the two
    nodes feeding combine_masks are not independent. *)
Lemma mask_branches_are_not_independent :
  ∃ wfE wfS,
    fst (build used_ports word_name
           (EnhanceAndSkullstrip "enhance_and_skullstrip_bold_wf" 1)
           empty_world) = OK wfE
    ∧ fst (build used_ports word_name
               (Skullstrip "skullstrip_bold_wf") empty_world)
      = OK wfS
    ∧ ¬ branches_independent wfE "combine_masks"
    ∧ ¬ branches_independent wfS "combine_masks".
Proof.
  exists (declared (EnhanceAndSkullstrip "enhance_and_skullstrip_bold_wf" 1)),
         (declared (Skullstrip "skullstrip_bold_wf")).
  repeat split; try (vm_compute; reflexivity).
  - intros Hind.
    apply (Hind "skullstrip_first_pass" "fixhdr_skullstrip2");
      [by_evaluation|by_evaluation|done|].
    apply (descendants_reaches _ 6). vm_compute. reflexivity.
  - intros Hind.
    apply (Hind "skullstrip_first_pass" "skullstrip_second_pass");
      [by_evaluation|by_evaluation|done|].
    apply (descendants_reaches _ 1). vm_compute. reflexivity.
Qed.

(** C6: init_bold_reference_wf embeds the enhance-and-skullstrip workflow
    as its only sub-graph.  The one connection from the parent into the
    sub-graph targets field in_file of the sub-graph's inputnode, the
    connections from the sub-graph to the parent read fields
    bias_corrected_file, mask_file and skull_stripped_file of its
    outputnode, both are pass-through nodes, and no connection of the
    parent names any other node of the sub-graph. *)
Theorem subgraph_is_reached_through_its_boundaries :
  ∀ (descriptor : tool -> Descriptor) (valid_name : string -> bool)
    (omp : Z) (bold_file : option string)
    (name : string) (world : World) (wf : Workflow),
    fst (build descriptor valid_name (BoldReference omp bold_file name) world)
      = OK wf ->
    ∃ sub inputnode outputnode,
      filter (fun m => is_subworkflow m = true) (wf_members wf)
      = [MWorkflow sub]
      ∧ sub = declared (EnhanceAndSkullstrip
                          "enhance_and_skullstrip_bold_wf" omp)
      ∧ map dst_in (filter (fun cn => dst cn = wf_name sub)
                           (wf_connections wf))
        = ["inputnode.in_file"]
      ∧ map src_out (filter (fun cn => src cn = wf_name sub)
                            (wf_connections wf))
        = ["outputnode.bias_corrected_file"; "outputnode.mask_file";
           "outputnode.skull_stripped_file"]
      ∧ find_node "inputnode" sub = Some inputnode
      ∧ find_node "outputnode" sub = Some outputnode
      ∧ is_identity inputnode = true
      ∧ is_identity outputnode = true
      ∧ locate_port (MWorkflow sub) "inputnode.in_file"
        = Some (inputnode, "in_file")
      ∧ map (locate_port (MWorkflow sub))
            ["outputnode.bias_corrected_file"; "outputnode.mask_file";
             "outputnode.skull_stripped_file"]
        = [Some (outputnode, "bias_corrected_file");
           Some (outputnode, "mask_file");
           Some (outputnode, "skull_stripped_file")].
Proof.
  intros descriptor valid_name omp bold_file name world wf H.
  apply build_returns in H. subst wf.
  exists (declared (EnhanceAndSkullstrip "enhance_and_skullstrip_bold_wf" omp)),
         (mkNode (niu_IdentityInterface ["in_file"]) "inputnode" None None),
         (mkNode (niu_IdentityInterface
                     ["mask_file"; "skull_stripped_file";
                      "bias_corrected_file"]) "outputnode" None None).
  destruct bold_file; repeat (split; [vm_compute; reflexivity|]);
    vm_compute; reflexivity.
Qed.



(** C8: the workflow returned by init_enhance_and_skullstrip_bold_wf has
    an outputnode with exactly the fields mask_file, skull_stripped_file
    and bias_corrected_file; out_report is not one of them and no
    connection writes it; each of the three fields is written by exactly
    one connection. *)
Theorem enhance_outputnode_fields :
  ∀ (descriptor : tool -> Descriptor) (valid_name : string -> bool)
    (name : string) (omp : Z)
    (world : World) (wf : Workflow),
    fst (build descriptor valid_name (EnhanceAndSkullstrip name omp) world)
      = OK wf ->
    fields_of wf "outputnode"
    = Some ["mask_file"; "skull_stripped_file"; "bias_corrected_file"]
    ∧ ("out_report" ∉ ["mask_file"; "skull_stripped_file";
                       "bias_corrected_file"])
    ∧ inbound wf "outputnode" "out_report" = []
    ∧ inbound wf "outputnode" "mask_file"
      = [mkConnection "combine_masks" "out_file" "outputnode" "mask_file"]
    ∧ inbound wf "outputnode" "skull_stripped_file"
      = [mkConnection "apply_mask" "out_file" "outputnode"
                      "skull_stripped_file"]
    ∧ inbound wf "outputnode" "bias_corrected_file"
      = [mkConnection "n4_correct" "output_image" "outputnode"
                      "bias_corrected_file"].
Proof.
  intros descriptor valid_name name omp world wf H.
  apply build_returns in H. subst wf.
  split; [vm_compute; reflexivity|]. split; [by_evaluation|].
  repeat (split; [vm_compute; reflexivity|]). vm_compute. reflexivity.
Qed.

(** C9: init_enhance_and_skullstrip_bold_wf does the same for any two
    values of omp_nthreads, and the n4_correct node of the workflow it
    returns asks for one process. *)
Theorem omp_nthreads_is_ignored :
  ∀ (descriptor : tool -> Descriptor) (valid_name : string -> bool)
    (name : string) (omp1 omp2 : Z)
    (world : World),
    build descriptor valid_name (EnhanceAndSkullstrip name omp1) world
    = build descriptor valid_name (EnhanceAndSkullstrip name omp2) world
    ∧ ∀ wf,
        fst (build descriptor valid_name (EnhanceAndSkullstrip name omp1) world)
          = OK wf ->
        (n_procs <$> find_node "n4_correct" wf) = Some (Some 1%Z).
Proof.
  intros descriptor valid_name name omp1 omp2 world. split; [reflexivity|].
  intros wf H. apply build_returns in H. subst wf. vm_compute. reflexivity.
Qed.

(** C10: with bold_file None the bold_file input of inputnode is left
    unresolved (no literal, no inbound connection); with a bold_file it is
    bound to that literal; and the two workflows have the same name, the
    same connections and the same members apart from inputnode, whose
    interface kind and resource hints are the same too. *)
Theorem bold_file_only_binds_the_inputnode :
  ∀ (descriptor : tool -> Descriptor) (valid_name : string -> bool)
    (omp : Z) (name : string)
    (world : World),
    (∀ wf,
        fst (build descriptor valid_name (BoldReference omp None name) world)
          = OK wf ->
        literal_input wf "inputnode" "bold_file" = None
        ∧ inbound wf "inputnode" "bold_file" = [])
    ∧ (∀ f wf,
          fst (build descriptor valid_name
                 (BoldReference omp (Some f) name) world)
          = OK wf ->
          literal_input wf "inputnode" "bold_file" = Some (LStr f))
    ∧ (∀ b1 b2 wf1 wf2,
          fst (build descriptor valid_name (BoldReference omp b1 name) world)
            = OK wf1 ->
          fst (build descriptor valid_name (BoldReference omp b2 name) world)
            = OK wf2 ->
          wf_name wf1 = wf_name wf2
          ∧ wf_connections wf1 = wf_connections wf2
          ∧ map member_name (wf_members wf1) = map member_name (wf_members wf2)
          ∧ filter (fun m => member_name m ≠ "inputnode") (wf_members wf1)
            = filter (fun m => member_name m ≠ "inputnode") (wf_members wf2)
          ∧ ((fun n => (iface_kind (node_interface n), mem_gb n, n_procs n))
               <$> find_node "inputnode" wf1)
            = ((fun n => (iface_kind (node_interface n), mem_gb n, n_procs n))
                 <$> find_node "inputnode" wf2)).
Proof.
  intros descriptor valid_name omp name world. split; [|split].
  - intros wf H. apply build_returns in H. subst wf.
    split; vm_compute; reflexivity.
  - intros f wf H. apply build_returns in H. subst wf.
    vm_compute. reflexivity.
  - intros b1 b2 wf1 wf2 H1 H2.
    apply build_returns in H1, H2. subst wf1 wf2.
    destruct b1, b2; repeat (split; [vm_compute; reflexivity|]);
      vm_compute; reflexivity.
Qed.

(** ** The engine model on the scenarios of the design document *)

Example chain_runs_three_units :
  run_status (report_of (fst (run used_ports sample_execute (chain "a.nii") []
                                 empty_world))) = Success
  ∧ length (dispatched (snd (run used_ports sample_execute (chain "a.nii") []
                                 empty_world))) = 3%nat.
Proof. vm_compute. split; reflexivity. Qed.

Example chain_rerun_dispatches_nothing :
  let w1 := snd (run used_ports sample_execute (chain "a.nii") [] empty_world) in
  let again := run used_ports sample_execute (chain "a.nii") [] w1 in
  dispatched (snd again) = dispatched w1
  ∧ node_status (report_of (fst again))
    = [(["A"], Some CacheHit); (["B"], Some CacheHit); (["C"], Some CacheHit)].
Proof. vm_compute. split; reflexivity. Qed.

Example chain_changed_input_reruns_all :
  let w1 := snd (run used_ports sample_execute (chain "a.nii") [] empty_world) in
  length (dispatched (snd (run used_ports sample_execute (chain "b.nii") [] w1)))
  = 6%nat.
Proof. vm_compute. reflexivity. Qed.

Example diamond_failure_blocks_the_join :
  let r := report_of (fst (run used_ports failing_bet diamond [] empty_world)) in
  run_status r = PartialFailure
  ∧ failures r = [(["B"], "bet failed")]
  ∧ blocked r = [["D"]]
  ∧ node_status r
    = [(["A"], Some Completed); (["B"], Some (Failed "bet failed"));
       (["C"], Some Completed); (["D"], Some Blocked)].
Proof. vm_compute. repeat split; reflexivity. Qed.

Example embedding_plan_has_no_boundary_node :
  snd <$> (match plan embedding with OK x => Some x | Error _ => None end)
  = Some [["U"]; ["inner"; "X"]; ["inner"; "Y"]; ["D"]].
Proof. vm_compute. reflexivity. Qed.

Example cycle_is_reported :
  plan_flat cyclic_graph = Error (CycleDetected [["b"]; ["c"]]).
Proof. vm_compute. reflexivity. Qed.

Example second_connection_to_an_input_is_refused :
  let A := mkNode (instantiate ValidateImage []) "A" None None in
  let B := mkNode (instantiate ValidateImage []) "B" None None in
  fst (connect used_ports (empty_workflow "w")
         [(A : Member, B : Member,
             [("out_file", "in_file"); ("out_report", "in_file")])]
         empty_world)
  = Error (DuplicateInput "B" "in_file").
Proof. vm_compute. reflexivity. Qed.

Example undeclared_port_is_refused :
  fst (build no_ports word_name (Skullstrip "skullstrip_bold_wf") empty_world)
  = Error (UnknownPort "skullstrip_first_pass" "in_file").
Proof. vm_compute. reflexivity. Qed.

(** ** The statements at concrete inputs *)

Lemma run_result_eta (x : result RunReport * World) :
  is_ok (fst x) = true -> x = (OK (report_of (fst x)), snd x).
Proof. by destruct x as [[r|e] w]. Qed.

Lemma second_pass_branch_follows_first_pass_witness :
  let wfE := declared (EnhanceAndSkullstrip "enhance_and_skullstrip_bold_wf" 1)
  in
  let wfS := declared (Skullstrip "skullstrip_bold_wf") in
  (fst (build used_ports word_name
          (EnhanceAndSkullstrip "enhance_and_skullstrip_bold_wf" 1)
          empty_world) = OK wfE
   ∧ feeders wfE "combine_masks"
     = ["skullstrip_first_pass"; "fixhdr_skullstrip2"]
   ∧ depends_on wfE "fixhdr_skullstrip2" "skullstrip_first_pass"
   ∧ ¬ depends_on wfE "skullstrip_first_pass" "fixhdr_skullstrip2")
  ∧ (fst (build used_ports word_name
             (Skullstrip "skullstrip_bold_wf") empty_world)
     = OK wfS
     ∧ feeders wfS "combine_masks"
       = ["skullstrip_first_pass"; "skullstrip_second_pass"]
     ∧ depends_on wfS "skullstrip_second_pass" "skullstrip_first_pass"
     ∧ ¬ depends_on wfS "skullstrip_first_pass" "skullstrip_second_pass").
Proof.
  intros wfE wfS.
  destruct (second_pass_branch_follows_first_pass
           used_ports word_name empty_world)
    as [HE HS].
  split.
  - split; [vm_compute; reflexivity|].
    apply (HE "enhance_and_skullstrip_bold_wf" 1%Z). vm_compute. reflexivity.
  - split; [vm_compute; reflexivity|].
    apply (HS "skullstrip_bold_wf"). vm_compute. reflexivity.
Defined.

Lemma run_is_idempotent_witness :
  let first := sample_run empty_world in
  let r1 := report_of (fst first) in
  first = (OK r1, snd first)
  ∧ run_status r1 = Success
  ∧ ∃ r2,
      sample_run (snd first) = (OK r2, snd first)
      ∧ outputs r2 = outputs r1
      ∧ run_status r2 = Success
      ∧ Forall (fun x => snd x = Some CacheHit) (node_status r2)
      ∧ dispatched (snd (sample_run (snd first))) = dispatched (snd first).
Proof.
  intros first r1.
  assert (H1 : first = (OK r1, snd first)).
  { apply run_result_eta. vm_compute. reflexivity. }
  assert (H2 : run_status r1 = Success).
  { vm_compute. reflexivity. }
  split; [exact H1|]. split; [exact H2|].
  exact (run_is_idempotent used_ports sample_execute
           (declared (Skullstrip "skullstrip_bold_wf")) sample_overrides
           empty_world (snd first) r1 H1 H2).
Defined.


Lemma no_destination_input_is_connected_twice_witness :
  let c := EnhanceAndSkullstrip "enhance_and_skullstrip_bold_wf" 1 in
  fst (build used_ports word_name c empty_world) = OK (declared c)
  ∧ NoDup (map slot (wf_connections (declared c)))
  ∧ ∀ n, NoDup (map dst_in (filter (fun cn => dst cn = n)
                                   (wf_connections (declared c)))).
Proof.
  intros c. split; [vm_compute; reflexivity|].
  apply (no_destination_input_is_connected_twice
           used_ports word_name c empty_world).
  vm_compute. reflexivity.
Defined.

Lemma boundary_ports_are_declared_witness :
  let c := BoldReference 1 None "bold_reference_wf" in
  fst (build used_ports word_name c empty_world) = OK (declared c)
  ∧ Forall (fun cn =>
              boundary_port_exists (declared c) (src cn) (src_out cn) = true
              ∧ boundary_port_exists (declared c) (dst cn) (dst_in cn) = true)
           (wf_connections (declared c))
  ∧ fields_of (declared c) "outputnode"
    = Some ["bold_file"; "raw_ref_image"; "skip_vols"; "ref_image";
            "ref_image_brain"; "bold_mask"; "validation_report"]
  ∧ Forall (fun f => length (inbound (declared c) "outputnode" f) = 1%nat)
           ["bold_file"; "raw_ref_image"; "skip_vols"; "ref_image";
            "ref_image_brain"; "bold_mask"; "validation_report"].
Proof.
  intros c. split; [vm_compute; reflexivity|].
  apply (boundary_ports_are_declared used_ports word_name c empty_world).
  vm_compute. reflexivity.
Defined.

Lemma subgraph_is_reached_through_its_boundaries_witness :
  let wf := declared (BoldReference 1 None "bold_reference_wf") in
  fst (build used_ports word_name (BoldReference 1 None "bold_reference_wf")
         empty_world) = OK wf
  ∧ ∃ sub inputnode outputnode,
      filter (fun m => is_subworkflow m = true) (wf_members wf)
      = [MWorkflow sub]
      ∧ sub = declared (EnhanceAndSkullstrip
                          "enhance_and_skullstrip_bold_wf" 1)
      ∧ map dst_in (filter (fun cn => dst cn = wf_name sub)
                           (wf_connections wf))
        = ["inputnode.in_file"]
      ∧ map src_out (filter (fun cn => src cn = wf_name sub)
                            (wf_connections wf))
        = ["outputnode.bias_corrected_file"; "outputnode.mask_file";
           "outputnode.skull_stripped_file"]
      ∧ find_node "inputnode" sub = Some inputnode
      ∧ find_node "outputnode" sub = Some outputnode
      ∧ is_identity inputnode = true
      ∧ is_identity outputnode = true
      ∧ locate_port (MWorkflow sub) "inputnode.in_file"
        = Some (inputnode, "in_file")
      ∧ map (locate_port (MWorkflow sub))
            ["outputnode.bias_corrected_file"; "outputnode.mask_file";
             "outputnode.skull_stripped_file"]
        = [Some (outputnode, "bias_corrected_file");
           Some (outputnode, "mask_file");
           Some (outputnode, "skull_stripped_file")].
Proof.
  intros wf. split; [vm_compute; reflexivity|].
  apply (subgraph_is_reached_through_its_boundaries
           used_ports word_name 1 None "bold_reference_wf" empty_world).
  vm_compute. reflexivity.
Defined.


Lemma enhance_outputnode_fields_witness :
  let wf := declared (EnhanceAndSkullstrip "enhance_and_skullstrip_bold_wf" 1)
  in
  fst (build used_ports word_name
         (EnhanceAndSkullstrip "enhance_and_skullstrip_bold_wf" 1)
         empty_world) = OK wf
  ∧ fields_of wf "outputnode"
    = Some ["mask_file"; "skull_stripped_file"; "bias_corrected_file"]
  ∧ ("out_report" ∉ ["mask_file"; "skull_stripped_file";
                     "bias_corrected_file"])
  ∧ inbound wf "outputnode" "out_report" = []
  ∧ inbound wf "outputnode" "mask_file"
    = [mkConnection "combine_masks" "out_file" "outputnode" "mask_file"]
  ∧ inbound wf "outputnode" "skull_stripped_file"
    = [mkConnection "apply_mask" "out_file" "outputnode"
                    "skull_stripped_file"]
  ∧ inbound wf "outputnode" "bias_corrected_file"
    = [mkConnection "n4_correct" "output_image" "outputnode"
                    "bias_corrected_file"].
Proof.
  intros wf. split; [vm_compute; reflexivity|].
  apply (enhance_outputnode_fields
           used_ports word_name "enhance_and_skullstrip_bold_wf" 1 empty_world).
  vm_compute. reflexivity.
Defined.

Lemma omp_nthreads_is_ignored_witness :
  let c := EnhanceAndSkullstrip "enhance_and_skullstrip_bold_wf" 1 in
  fst (build used_ports word_name c empty_world) = OK (declared c)
  ∧ build used_ports word_name c empty_world
    = build used_ports word_name
        (EnhanceAndSkullstrip "enhance_and_skullstrip_bold_wf" 8) empty_world
  ∧ (n_procs <$> find_node "n4_correct" (declared c)) = Some (Some 1%Z).
Proof.
  intros c.
  destruct (omp_nthreads_is_ignored
              used_ports word_name "enhance_and_skullstrip_bold_wf" 1 8
              empty_world)
    as [Hsame Hprocs].
  split; [vm_compute; reflexivity|]. split; [exact Hsame|].
  apply Hprocs. vm_compute. reflexivity.
Defined.

Lemma bold_file_only_binds_the_inputnode_witness :
  let c0 := BoldReference 1 None "bold_reference_wf" in
  let c1 := BoldReference 1 (Some "sub-01_bold.nii.gz") "bold_reference_wf" in
  fst (build used_ports word_name c0 empty_world) = OK (declared c0)
  ∧ fst (build used_ports word_name c1 empty_world) = OK (declared c1)
  ∧ literal_input (declared c0) "inputnode" "bold_file" = None
  ∧ inbound (declared c0) "inputnode" "bold_file" = []
  ∧ literal_input (declared c1) "inputnode" "bold_file"
    = Some (LStr "sub-01_bold.nii.gz")
  ∧ wf_connections (declared c0) = wf_connections (declared c1)
  ∧ filter (fun m => member_name m ≠ "inputnode") (wf_members (declared c0))
    = filter (fun m => member_name m ≠ "inputnode") (wf_members (declared c1)).
Proof.
  intros c0 c1.
  destruct (bold_file_only_binds_the_inputnode
              used_ports word_name 1 "bold_reference_wf" empty_world)
    as (Hnone & Hsome & Hsame).
  assert (H0 : fst (build used_ports word_name c0 empty_world)
    = OK (declared c0)).
  { vm_compute. reflexivity. }
  assert (H1 : fst (build used_ports word_name c1 empty_world)
    = OK (declared c1)).
  { vm_compute. reflexivity. }
  destruct (Hnone _ H0) as [Hlit Hin].
  destruct (Hsame None (Some "sub-01_bold.nii.gz") _ _ H0 H1)
    as (_ & Hconn & _ & Hmem & _).
  split; [exact H0|]. split; [exact H1|]. split; [exact Hlit|].
  split; [exact Hin|]. split; [exact (Hsome _ _ H1)|].
  split; [exact Hconn|exact Hmem].
Defined.

(** * Further properties of the builders *)

(** ** How a build can end *)

Section BuildOutcomes.

Variable descriptor : tool -> Descriptor.

Lemma add_member_cases m ms :
  match add_member m ms with
  | OK ms' => ms' = add_absent m ms ∧ clashes m ms = false
  | Error (DuplicateName _) => clashes m ms = true
  | Error _ => False
  end.
Proof.
  unfold add_member, add_absent, clashes.
  destruct (find_member (member_name m) ms) as [m'|]; [|done].
  by destruct (Member_eqb m' m).
Qed.

(** What each answer of [connect1] says about the edge. *)
Lemma connect1_cases w e :
  match connect1 descriptor w e with
  | OK w' => w' = declare1 w e ∧ ports_ok descriptor e = true
  | Error (DuplicateName _) =>
      let '(s, _, d, _) := e in
      clashes s (wf_members w) || clashes d (add_absent s (wf_members w))
      = true
  | Error (UnknownPort _ _) | Error (TypeMismatch _ _) =>
      ports_ok descriptor e = false
  | Error (DuplicateInput _ _) => True
  | Error _ => False
  end.
Proof.
  destruct e as [[[s o] d] i]. unfold connect1, declare1, ports_ok.
  pose proof (add_member_cases s (wf_members w)) as H1.
  destruct (add_member s (wf_members w)) as [ms1|e1]; cbn.
  2:{ destruct e1; try done. by rewrite H1. }
  destruct H1 as [-> H1]. rewrite H1. cbn.
  pose proof (add_member_cases d (add_absent s (wf_members w))) as H2.
  destruct (add_member d _) as [ms2|e2]; cbn.
  2:{ by destruct e2. }
  destruct H2 as [-> H2].
  destruct (source_port descriptor s o) as [to|]; [|done].
  destruct (dest_port descriptor d i) as [ti|]; [|done].
  destruct (compatible to ti); cbn; [|done].
  by destruct (already_connected _ _ _).
Qed.

Lemma connect_all_cases es : ∀ w,
  match connect_all descriptor w es with
  | OK w' => w' = declare w es ∧ forallb (ports_ok descriptor) es = true
  | Error (DuplicateName _) => name_clash w es = true
  | Error (UnknownPort _ _) | Error (TypeMismatch _ _) =>
      forallb (ports_ok descriptor) es = false
  | Error (DuplicateInput _ _) => True
  | Error _ => False
  end.
Proof.
  induction es as [|e r IH]; intros w; [done|]. cbn [connect_all].
  pose proof (connect1_cases w e) as H1.
  destruct (connect1 descriptor w e) as [w1|e1]; cbn.
  - destruct H1 as [-> Hp]. specialize (IH (declare1 w e)).
    destruct (connect_all descriptor (declare1 w e) r) as [w2|e2].
    + destruct IH as [-> Hr]. split; [done|]. cbn. by rewrite Hp, Hr.
    + destruct e2; try done; cbn.
      * destruct e as [[[s o] d] i]. rewrite IH. apply orb_true_r.
      * by rewrite Hp, IH.
      * by rewrite Hp, IH.
  - destruct e1; try done; cbn.
    + destruct e as [[[s o] d] i]. by rewrite H1.
    + by rewrite H1.
    + by rewrite H1.
Qed.

Lemma adequate_requested w :
  forallb (fun oe => bool_decide (is_Some oe)) (resolved_edges w) = true ->
  adequate descriptor w
  = forallb (ports_ok descriptor) (omap id (resolved_edges w)).
Proof.
  unfold adequate. induction (resolved_edges w) as [|[e|] r IH]; [done|..].
  - cbn. intros H. by rewrite IH.
  - done.
Qed.

(** Once its names are accepted, a builder call is one [connect] over the
    edges it requests; the reference builder first builds its
    sub-workflow. *)
Lemma build_unfold c world :
  fst (build descriptor any_name c world)
  = match c with
    | BoldReference omp _ _ =>
        match connect_all descriptor
                (empty_workflow "enhance_and_skullstrip_bold_wf")
                (requested_edges
                   (EnhanceAndSkullstrip "enhance_and_skullstrip_bold_wf" omp))
        with
        | OK _ => connect_all descriptor (empty_workflow (call_name c))
                              (requested_edges c)
        | Error e => Error e
        end
    | _ => connect_all descriptor (empty_workflow (call_name c))
                       (requested_edges c)
    end.
Proof.
  destruct c as [omp bf name|name omp|name]; cbn [call_name]; run_builder.
  - match goal with
    | |- context [connect_all descriptor ?w ?es] =>
        replace es
          with (requested_edges
                  (EnhanceAndSkullstrip "enhance_and_skullstrip_bold_wf" omp))
          by (vm_compute; reflexivity)
    end.
    destruct (connect_all descriptor _ _) as [sub|e] eqn:E; [|done].
    apply connect_all_ok in E. subst sub.
    cbn [fst]. f_equal; destruct bf; vm_compute; reflexivity.
  - cbn [fst]. f_equal; vm_compute; reflexivity.
  - cbn [fst]. f_equal; vm_compute; reflexivity.
Qed.

End BuildOutcomes.

Section BuilderOutcomes.

Variable descriptor : tool -> Descriptor.

Lemma connect_all_outcome w es target :
  name_clash w es = false ->
  bool_decide (NoDup (map slot (wf_connections w ++ map edge_connection es)))
  = true ->
  boundary_endpoints_declared es = true ->
  declare w es = target ->
  match connect_all descriptor w es with
  | OK w' => w' = target
  | Error (UnknownPort m p) => names_boundary m p = false
  | Error (TypeMismatch _ _) => True
  | Error _ => False
  end.
Proof.
  intros Hn Hd Hb <-.
  pose proof (connect_all_cases descriptor es w) as Hc.
  pose proof (connect_all_no_duplicate descriptor w es Hd) as Hdup.
  pose proof (connect_all_boundary_ports descriptor w es Hb) as Hunk.
  destruct (connect_all descriptor w es) as [w'|e]; [by destruct Hc|].
  destruct e; try done. congruence.
Qed.

Lemma connect_all_succeeds w es target (b : bool) :
  name_clash w es = false ->
  bool_decide (NoDup (map slot (wf_connections w ++ map edge_connection es)))
  = true ->
  declare w es = target ->
  b = forallb (ports_ok descriptor) es ->
  connect_all descriptor w es = OK target ↔ b = true.
Proof.
  intros Hn Hd <- ->.
  pose proof (connect_all_cases descriptor es w) as Hc.
  pose proof (connect_all_no_duplicate descriptor w es Hd) as Hdup.
  destruct (connect_all descriptor w es) as [w'|e].
  - destruct Hc as [-> Hp]. by split.
  - split; [done|]. intros Hp. destruct e; try done; congruence.
Qed.

Lemma requested_edges_checks c :
  name_clash (empty_workflow (call_name c)) (requested_edges c) = false
  ∧ bool_decide
      (NoDup (map slot (wf_connections (empty_workflow (call_name c))
                        ++ map edge_connection (requested_edges c)))) = true
  ∧ boundary_endpoints_declared (requested_edges c) = true
  ∧ declare (empty_workflow (call_name c)) (requested_edges c) = declared c
  ∧ forallb (fun oe => bool_decide (is_Some oe)) (resolved_edges (declared c))
    = true.
Proof.
  destruct c as [omp [f|] name|name omp|name];
    repeat (split; [vm_compute; reflexivity|]); vm_compute; reflexivity.
Qed.

Lemma all_workflows_declared c :
  all_workflows (declared c)
  = match c with
    | BoldReference omp _ _ =>
        [declared c;
         declared (EnhanceAndSkullstrip "enhance_and_skullstrip_bold_wf" omp)]
    | _ => [declared c]
    end.
Proof.
  destruct c as [omp [f|] name|name omp|name]; vm_compute; reflexivity.
Qed.

End BuilderOutcomes.

#[local] Opaque declared requested_edges connect_all adequate.

Lemma accepted_build_outcome descriptor valid_name c world :
  build_outcome_allowed valid_name c
    (fst (build descriptor any_name c world)).
Proof.
  assert (Hallowed : ∀ r,
             match r with
             | OK w' => w' = declared c
             | Error (UnknownPort m p) => names_boundary m p = false
             | Error (TypeMismatch _ _) => True
             | Error _ => False
             end -> build_outcome_allowed valid_name c r).
  { intros [w'|e]; [done|]. by destruct e. }
  apply Hallowed. clear Hallowed.
  pose proof (build_unfold descriptor c world) as Hbuild.
  generalize dependent (fst (build descriptor any_name c world)). intros r ->.
  destruct (requested_edges_checks c) as (Hn & Hd & Hb & Hdecl & _).
  pose proof (connect_all_outcome descriptor _ _ _ Hn Hd Hb Hdecl) as Houter.
  destruct c as [omp bf name|name omp|name]; [|exact Houter..].
  destruct (requested_edges_checks
              (EnhanceAndSkullstrip "enhance_and_skullstrip_bold_wf" omp))
    as (Hn' & Hd' & Hb' & Hdecl' & _).
  pose proof (connect_all_outcome descriptor _ _ _ Hn' Hd' Hb' Hdecl')
    as Hinner.
  cbn [call_name] in Hinner.
  destruct (connect_all descriptor
              (empty_workflow "enhance_and_skullstrip_bold_wf") _) as [sub|e].
  - exact Houter.
  - destruct e; try done.
Qed.

Lemma accepted_build_succeeds descriptor c world :
  fst (build descriptor any_name c world) = OK (declared c)
  ↔ adequate_all descriptor (declared c) = true.
Proof.
  pose proof (build_unfold descriptor c world) as Hbuild.
  generalize dependent (fst (build descriptor any_name c world)). intros r ->.
  unfold adequate_all. rewrite all_workflows_declared.
  destruct (requested_edges_checks c) as (Hn & Hd & _ & Hdecl & Hres).
  pose proof (connect_all_succeeds descriptor _ _ _ _ Hn Hd Hdecl
                (adequate_requested descriptor _ Hres)) as Houter.
  destruct c as [omp bf name|name omp|name]; cbn [forallb];
    rewrite ?andb_true_r; [|exact Houter..].
  destruct (requested_edges_checks
              (EnhanceAndSkullstrip "enhance_and_skullstrip_bold_wf" omp))
    as (Hn' & Hd' & _ & Hdecl' & Hres').
  pose proof (connect_all_succeeds descriptor _ _ _ _ Hn' Hd' Hdecl'
                (adequate_requested descriptor _ Hres')) as Hinner.
  cbn [call_name] in Hinner. rewrite andb_true_iff.
  pose proof (connect_all_cases descriptor
                (requested_edges
                   (EnhanceAndSkullstrip
                      "enhance_and_skullstrip_bold_wf" omp))
                (empty_workflow "enhance_and_skullstrip_bold_wf")) as Hc.
  cbn [call_name] in Hdecl'. rewrite Hdecl' in Hc.
  destruct (connect_all descriptor
              (empty_workflow "enhance_and_skullstrip_bold_wf") _) as [sub|e].
  - destruct Hc as [-> _]. split.
    + intros H. split; [by apply Houter|]. by apply Hinner.
    + intros [H _]. by apply Houter.
  - split; [done|]. intros [_ H]. by apply Hinner in H.
Qed.

(** X1: whatever the tool descriptors, the engine's name check and the
    arguments are, a builder call either returns its workflow, or is
    refused for a name the engine does not accept (one of the names the
    call constructs), or is refused for a port of a wrapped tool (an
    unknown port of a node other than inputnode and outputnode, or a type
    mismatch); it is never refused for a duplicate name or a doubly
    connected input. *)
Theorem builders_fail_only_on_names_and_tool_ports :
  ∀ (descriptor : tool -> Descriptor) (valid_name : string -> bool)
    (c : BuilderCall) (world : World),
    build_outcome_allowed valid_name c
      (fst (build descriptor valid_name c world)).
Proof.
  intros descriptor valid_name c world.
  destruct (build_names descriptor valid_name c world)
    as [(n & Hin & Hn & ->)|[_ ->]]; [by split|].
  apply accepted_build_outcome.
Qed.

(** X2: a builder call succeeds, returning its workflow, exactly when the
    engine accepts every name the call constructs (the [name] argument and
    the names of the nodes and of the sub-workflow) and the tool
    descriptors declare with compatible types every port that the
    connections of the workflow and of its sub-workflow name. *)
Theorem builders_succeed_iff_names_and_ports_adequate :
  ∀ (descriptor : tool -> Descriptor) (valid_name : string -> bool)
    (c : BuilderCall) (world : World),
    fst (build descriptor valid_name c world) = OK (declared c)
    ↔ forallb valid_name (checked_names c) = true
      ∧ adequate_all descriptor (declared c) = true.
Proof.
  intros descriptor valid_name c world.
  destruct (build_names descriptor valid_name c world)
    as [(n & Hin & Hn & ->)|[Hall ->]].
  - split; [done|]. intros [Hall _].
    rewrite forallb_forall in Hall.
    apply list_elem_of_In, Hall in Hin. congruence.
  - rewrite accepted_build_succeeds. by split; [|intros [_ ?]].
Qed.

#[local] Transparent declared requested_edges connect_all adequate.

(** ** The shape of the declared graphs *)

Lemma predecessor_closed_reaches {A : Type} `{EqDecision A}
    (E : list (A * A)) (S : list A) (a b : A) :
  predecessor_closed E S = true -> b ∈ S -> reaches E a b -> a ∈ S.
Proof.
  unfold predecessor_closed. rewrite forallb_forall. intros Hall Hb Hr.
  induction Hr as [a b Hab|a b c Hab _ IH].
  - apply list_elem_of_In, Hall in Hab. cbn in Hab.
    rewrite bool_decide_eq_true_2 in Hab by done.
    by apply bool_decide_eq_true in Hab.
  - specialize (IH Hb).
    apply list_elem_of_In, Hall in Hab. cbn in Hab.
    rewrite bool_decide_eq_true_2 in Hab by done.
    by apply bool_decide_eq_true in Hab.
Qed.

Lemma on_path_check_sound fuel w a z :
  on_path_check fuel w a z = true ->
  Forall (fun m => (m ≠ a -> depends_on w m a) ∧ (m ≠ z -> depends_on w z m))
         (member_names w).
Proof.
  unfold on_path_check. rewrite forallb_forall, Forall_forall.
  intros Hall m Hm. apply list_elem_of_In, Hall in Hm.
  apply andb_true_iff in Hm as [Ha Hz]. split.
  - intros Hne. apply orb_true_iff in Ha as [Ha|Ha].
    + by apply bool_decide_eq_true in Ha.
    + by eapply descendants_reaches.
  - intros Hne. apply orb_true_iff in Hz as [Hz|Hz].
    + by apply bool_decide_eq_true in Hz.
    + by eapply descendants_reaches.
Qed.

(** X4: in every workflow a builder returns, each field of inputnode is
    read by at least one connection, each field of outputnode is written by
    exactly one connection, no connection writes into inputnode and none
    reads from outputnode. *)
Theorem boundary_fields_are_all_used :
  ∀ (descriptor : tool -> Descriptor) (valid_name : string -> bool)
    (c : BuilderCall) (world : World)
    (wf : Workflow),
    fst (build descriptor valid_name c world) = OK wf ->
    is_Some (fields_of wf "inputnode")
    ∧ is_Some (fields_of wf "outputnode")
    ∧ Forall (fun f => outbound wf "inputnode" f ≠ [])
             (default [] (fields_of wf "inputnode"))
    ∧ Forall (fun f => length (inbound wf "outputnode" f) = 1%nat)
             (default [] (fields_of wf "outputnode"))
    ∧ has_inbound wf "inputnode" = false
    ∧ has_outbound wf "outputnode" = false.
Proof.
  intros descriptor valid_name c world wf H. apply build_returns in H. subst wf.
  destruct c as [omp [f|] name|name omp|name]; by_evaluation.
Qed.

(** X5: in every workflow a builder returns, inputnode is the only member
    without an inbound connection and outputnode the only member without an
    outbound connection. *)
Theorem single_entry_and_single_exit :
  ∀ (descriptor : tool -> Descriptor) (valid_name : string -> bool)
    (c : BuilderCall) (world : World)
    (wf : Workflow),
    fst (build descriptor valid_name c world) = OK wf ->
    filter (fun n => has_inbound wf n = false) (member_names wf)
    = ["inputnode"]
    ∧ filter (fun n => has_outbound wf n = false) (member_names wf)
      = ["outputnode"].
Proof.
  intros descriptor valid_name c world wf H. apply build_returns in H. subst wf.
  destruct c as [omp [f|] name|name omp|name];
    (split; vm_compute; reflexivity).
Qed.

(** X6: in every workflow a builder returns, every member other than
    inputnode transitively depends on inputnode, and outputnode
    transitively depends on every other member: no member is computed
    without the input or computed for nothing. *)
Theorem every_member_lies_between_the_boundaries :
  ∀ (descriptor : tool -> Descriptor) (valid_name : string -> bool)
    (c : BuilderCall) (world : World)
    (wf : Workflow),
    fst (build descriptor valid_name c world) = OK wf ->
    Forall (fun m => (m ≠ "inputnode" -> depends_on wf m "inputnode")
                     ∧ (m ≠ "outputnode" -> depends_on wf "outputnode" m))
           (member_names wf).
Proof.
  intros descriptor valid_name c world wf H. apply build_returns in H. subst wf.
  apply (on_path_check_sound 12).
  destruct c as [omp [f|] name|name omp|name]; vm_compute; reflexivity.
Qed.

(** X7: in every workflow a builder returns, and in its sub-workflow, every
    connection ends on an input of an existing node on which no literal is
    bound: no keyword argument or assigned input is overridden by a
    connection. *)
Theorem no_literal_input_is_connected :
  ∀ (descriptor : tool -> Descriptor) (valid_name : string -> bool)
    (c : BuilderCall) (world : World)
    (wf : Workflow),
    fst (build descriptor valid_name c world) = OK wf ->
    Forall (fun w =>
              Forall (fun cn => input_unbound w (dst cn) (dst_in cn) = true)
                     (wf_connections w))
           (all_workflows wf).
Proof.
  intros descriptor valid_name c world wf H. apply build_returns in H. subst wf.
  destruct c as [omp [f|] name|name omp|name]; by_evaluation.
Qed.

(** X8: init_bold_reference_wf does the same for any two values of
    omp_nthreads: the argument is only handed to the sub-workflow builder,
    which does not use it. *)
Theorem reference_workflow_ignores_omp_nthreads :
  ∀ (descriptor : tool -> Descriptor) (valid_name : string -> bool)
    (omp1 omp2 : Z)
    (bold_file : option string) (name : string) (world : World),
    build descriptor valid_name (BoldReference omp1 bold_file name) world
    = build descriptor valid_name (BoldReference omp2 bold_file name) world.
Proof. reflexivity. Qed.

(** X9: the name argument of a builder only names the returned workflow:
    under another name the builder returns the same members and
    connections. *)
Theorem name_only_names_the_workflow :
  ∀ (descriptor : tool -> Descriptor) (valid_name : string -> bool)
    (c : BuilderCall) (name : string)
    (world : World) (wf wf' : Workflow),
    fst (build descriptor valid_name c world) = OK wf ->
    fst (build descriptor valid_name (rename c name) world) = OK wf' ->
    wf_name wf = call_name c
    ∧ wf' = mkWorkflow name (wf_members wf) (wf_connections wf).
Proof.
  intros descriptor valid_name c name world wf wf' H H'.
  apply build_returns in H, H'. subst wf wf'.
  destruct c as [omp [f|] n|n omp|n]; (split; vm_compute; reflexivity).
Qed.

(** ** What the outputs are computed from *)

(** The members a member transitively depends on are exactly those of a
    list [S] when [S] with the member is closed under predecessors, every
    member of [S] reaches it and the graph is acyclic. *)
Lemma dependencies_exactly (w : Workflow) (order S : list string)
    (n : string) :
  respectsb order (member_edges w) = true ->
  predecessor_closed (member_edges w) (n :: S) = true ->
  forallb (fun m => bool_decide
                      (n ∈ descendants (length (member_edges w))
                                       (member_edges w) [m])) S = true ->
  ∀ m, depends_on w n m ↔ m ∈ S.
Proof.
  intros Hord Hclosed Hreach m. unfold depends_on. split.
  - intros Hr.
    pose proof (predecessor_closed_reaches _ _ m n Hclosed
                  ltac:(left) Hr) as Hin.
    apply elem_of_cons in Hin as [->|Hin]; [|done].
    by apply (respectsb_acyclic order) in Hr.
  - intros Hm. rewrite forallb_forall in Hreach.
    apply list_elem_of_In, Hreach in Hm. by eapply descendants_reaches.
Qed.

(** X10: in the workflow init_enhance_and_skullstrip_bold_wf returns, the
    node that produces bias_corrected_file, n4_correct, depends on
    inputnode and n4_mask and on nothing else: the bias-corrected output is
    computed before, and independently of, every skull-stripping node. *)
Theorem bias_corrected_file_depends_only_on_the_n4_mask :
  ∀ (descriptor : tool -> Descriptor) (valid_name : string -> bool)
    (name : string) (omp : Z)
    (world : World) (wf : Workflow),
    fst (build descriptor valid_name (EnhanceAndSkullstrip name omp) world)
      = OK wf ->
    map src (inbound wf "outputnode" "bias_corrected_file") = ["n4_correct"]
    ∧ ∀ m, depends_on wf "n4_correct" m ↔ m ∈ ["inputnode"; "n4_mask"].
Proof.
  intros descriptor valid_name name omp world wf H.
  apply build_returns in H. subst wf.
  split; [vm_compute; reflexivity|].
  apply (dependencies_exactly _
           ["inputnode"; "n4_mask"; "n4_correct"; "skullstrip_first_pass";
            "skullstrip_first_dilate"; "skullstrip_first_mask"; "unifize";
            "fixhdr_unifize"; "skullstrip_second_pass"; "fixhdr_skullstrip2";
            "combine_masks"; "apply_mask"; "outputnode"]);
    vm_compute; reflexivity.
Qed.

(** X11: in the workflow init_bold_reference_wf returns, the outputs
    bold_file, validation_report, raw_ref_image and skip_vols are written by
    validate and gen_ref, and gen_ref depends on inputnode and validate and
    on nothing else: these four outputs do not depend on the enhancement
    sub-workflow. *)
Theorem raw_reference_outputs_do_not_depend_on_the_subworkflow :
  ∀ (descriptor : tool -> Descriptor) (valid_name : string -> bool)
    (omp : Z) (bold_file : option string)
    (name : string) (world : World) (wf : Workflow),
    fst (build descriptor valid_name (BoldReference omp bold_file name) world)
      = OK wf ->
    map (fun f => map src (inbound wf "outputnode" f))
        ["bold_file"; "validation_report"; "raw_ref_image"; "skip_vols"]
    = [["validate"]; ["validate"]; ["gen_ref"]; ["gen_ref"]]
    ∧ (∀ m, depends_on wf "validate" m ↔ m ∈ ["inputnode"])
    ∧ (∀ m, depends_on wf "gen_ref" m ↔ m ∈ ["inputnode"; "validate"]).
Proof.
  intros descriptor valid_name omp bold_file name world wf H.
  apply build_returns in H. subst wf.
  split; [destruct bold_file; vm_compute; reflexivity|]. split.
  - apply (dependencies_exactly _
             ["inputnode"; "validate"; "gen_ref";
              "enhance_and_skullstrip_bold_wf"; "outputnode"]);
      destruct bold_file; vm_compute; reflexivity.
  - apply (dependencies_exactly _
             ["inputnode"; "validate"; "gen_ref";
              "enhance_and_skullstrip_bold_wf"; "outputnode"]);
      destruct bold_file; vm_compute; reflexivity.
Qed.

(** X12: in the workflow init_enhance_and_skullstrip_bold_wf returns, the
    nodes wrapping CopyXForm are fixhdr_unifize and fixhdr_skullstrip2, and
    the hdr_file input of each is fed by field in_file of inputnode and by
    nothing else: headers are always copied from the workflow's input
    image. *)
Theorem headers_are_copied_from_the_input_image :
  ∀ (descriptor : tool -> Descriptor) (valid_name : string -> bool)
    (name : string) (omp : Z)
    (world : World) (wf : Workflow),
    fst (build descriptor valid_name (EnhanceAndSkullstrip name omp) world)
      = OK wf ->
    map node_name (nodes_wrapping CopyXForm wf)
    = ["fixhdr_unifize"; "fixhdr_skullstrip2"]
    ∧ Forall (fun n =>
                inbound wf (node_name n) "hdr_file"
                = [mkConnection "inputnode" "in_file" (node_name n) "hdr_file"])
             (nodes_wrapping CopyXForm wf).
Proof.
  intros descriptor valid_name name omp world wf H.
  apply build_returns in H. subst wf.
  split; [vm_compute; reflexivity|by_evaluation].
Qed.

(** X13: the nodes skullstrip_first_pass, skullstrip_second_pass,
    combine_masks and apply_mask exist in both the workflow
    init_enhance_and_skullstrip_bold_wf returns and the workflow
    init_skullstrip_bold_wf returns, and each is the same node in both:
    same wrapped tool, same keyword arguments, same resource hints. *)
Theorem both_skullstrip_workflows_configure_their_nodes_alike :
  ∀ (descriptor : tool -> Descriptor) (valid_name : string -> bool)
    (name1 name2 : string) (omp : Z)
    (world : World) (wfE wfS : Workflow),
    fst (build descriptor valid_name (EnhanceAndSkullstrip name1 omp) world)
      = OK wfE ->
    fst (build descriptor valid_name (Skullstrip name2) world) = OK wfS ->
    Forall (fun n => is_Some (find_node n wfE)
                     ∧ find_node n wfE = find_node n wfS)
           ["skullstrip_first_pass"; "skullstrip_second_pass";
            "combine_masks"; "apply_mask"].
Proof.
  intros descriptor valid_name name1 name2 omp world wfE wfS HE HS.
  apply build_returns in HE, HS. subst wfE wfS. by_evaluation.
Qed.

(** X14: in the workflows init_enhance_and_skullstrip_bold_wf and
    init_skullstrip_bold_wf return, the mask exported as mask_file is the
    mask applied to produce skull_stripped_file: both the mask_file field
    of outputnode and the mask_file input of apply_mask are fed by output
    out_file of combine_masks, and skull_stripped_file is written by
    apply_mask. *)
Theorem exported_mask_is_the_applied_mask :
  ∀ (descriptor : tool -> Descriptor) (valid_name : string -> bool)
    (c : BuilderCall) (world : World)
    (wf : Workflow),
    (∃ name, c = Skullstrip name ∨ ∃ omp, c = EnhanceAndSkullstrip name omp) ->
    fst (build descriptor valid_name c world) = OK wf ->
    map (fun cn => (src cn, src_out cn)) (inbound wf "outputnode" "mask_file")
    = [("combine_masks", "out_file")]
    ∧ map (fun cn => (src cn, src_out cn)) (inbound wf "apply_mask" "mask_file")
      = [("combine_masks", "out_file")]
    ∧ map (fun cn => (src cn, src_out cn))
          (inbound wf "outputnode" "skull_stripped_file")
      = [("apply_mask", "out_file")].
Proof.
  intros descriptor valid_name c world wf Hc H.
  apply build_returns in H. subst wf.
  destruct Hc as [name [->|[omp ->]]];
    repeat (split; [vm_compute; reflexivity|]); vm_compute; reflexivity.
Qed.

(** ** The further statements at concrete inputs *)

Lemma builders_succeed_iff_names_and_ports_adequate_witness :
  let c := BoldReference 1 None "bold_reference_wf" in
  forallb word_name (checked_names c) = true
  ∧ adequate_all used_ports (declared c) = true
  ∧ fst (build used_ports word_name c empty_world) = OK (declared c).
Proof.
  intros c.
  assert (Hn : forallb word_name (checked_names c) = true).
  { vm_compute. reflexivity. }
  assert (H : adequate_all used_ports (declared c) = true).
  { vm_compute. reflexivity. }
  split; [exact Hn|]. split; [exact H|].
  exact (proj2 (builders_succeed_iff_names_and_ports_adequate
                  used_ports word_name c empty_world)
               (conj Hn H)).
Defined.

Lemma boundary_fields_are_all_used_witness :
  let wf := declared (Skullstrip "skullstrip_bold_wf") in
  fst (build used_ports word_name (Skullstrip "skullstrip_bold_wf") empty_world)
    = OK wf
  ∧ is_Some (fields_of wf "inputnode")
  ∧ is_Some (fields_of wf "outputnode")
  ∧ Forall (fun f => outbound wf "inputnode" f ≠ [])
           (default [] (fields_of wf "inputnode"))
  ∧ Forall (fun f => length (inbound wf "outputnode" f) = 1%nat)
           (default [] (fields_of wf "outputnode"))
  ∧ has_inbound wf "inputnode" = false
  ∧ has_outbound wf "outputnode" = false.
Proof.
  intros wf. split; [vm_compute; reflexivity|].
  apply (boundary_fields_are_all_used
           used_ports word_name (Skullstrip "skullstrip_bold_wf") empty_world).
  vm_compute. reflexivity.
Defined.

Lemma single_entry_and_single_exit_witness :
  let wf := declared (Skullstrip "skullstrip_bold_wf") in
  fst (build used_ports word_name (Skullstrip "skullstrip_bold_wf") empty_world)
    = OK wf
  ∧ filter (fun n => has_inbound wf n = false) (member_names wf)
    = ["inputnode"]
  ∧ filter (fun n => has_outbound wf n = false) (member_names wf)
    = ["outputnode"].
Proof.
  intros wf. split; [vm_compute; reflexivity|].
  apply (single_entry_and_single_exit
           used_ports word_name (Skullstrip "skullstrip_bold_wf") empty_world).
  vm_compute. reflexivity.
Defined.

Lemma every_member_lies_between_the_boundaries_witness :
  let c := EnhanceAndSkullstrip "enhance_and_skullstrip_bold_wf" 1 in
  fst (build used_ports word_name c empty_world) = OK (declared c)
  ∧ Forall (fun m =>
              (m ≠ "inputnode" -> depends_on (declared c) m "inputnode")
              ∧ (m ≠ "outputnode" -> depends_on (declared c) "outputnode" m))
           (member_names (declared c)).
Proof.
  intros c. split; [vm_compute; reflexivity|].
  apply (every_member_lies_between_the_boundaries
           used_ports word_name c empty_world).
  vm_compute. reflexivity.
Defined.

Lemma no_literal_input_is_connected_witness :
  let c := BoldReference 1 (Some "sub-01_bold.nii.gz") "bold_reference_wf" in
  fst (build used_ports word_name c empty_world) = OK (declared c)
  ∧ Forall (fun w =>
              Forall (fun cn => input_unbound w (dst cn) (dst_in cn) = true)
                     (wf_connections w))
           (all_workflows (declared c)).
Proof.
  intros c. split; [vm_compute; reflexivity|].
  apply (no_literal_input_is_connected used_ports word_name c empty_world).
  vm_compute. reflexivity.
Defined.

Lemma name_only_names_the_workflow_witness :
  let c := Skullstrip "skullstrip_bold_wf" in
  fst (build used_ports word_name c empty_world) = OK (declared c)
  ∧ fst (build used_ports word_name (rename c "other") empty_world)
    = OK (declared (rename c "other"))
  ∧ wf_name (declared c) = call_name c
  ∧ declared (rename c "other")
    = mkWorkflow "other" (wf_members (declared c))
                 (wf_connections (declared c)).
Proof.
  intros c.
  assert (H : fst (build used_ports word_name c empty_world) = OK (declared c)).
  { vm_compute. reflexivity. }
  assert (H' : fst (build used_ports word_name (rename c "other") empty_world)
               = OK (declared (rename c "other"))).
  { vm_compute. reflexivity. }
  split; [exact H|]. split; [exact H'|].
  exact (name_only_names_the_workflow used_ports word_name c "other" empty_world
           _ _ H H').
Defined.

Lemma bias_corrected_file_depends_only_on_the_n4_mask_witness :
  let wf := declared (EnhanceAndSkullstrip "enhance_and_skullstrip_bold_wf" 1)
  in
  fst (build used_ports word_name
         (EnhanceAndSkullstrip "enhance_and_skullstrip_bold_wf" 1)
         empty_world) = OK wf
  ∧ map src (inbound wf "outputnode" "bias_corrected_file") = ["n4_correct"]
  ∧ ∀ m, depends_on wf "n4_correct" m ↔ m ∈ ["inputnode"; "n4_mask"].
Proof.
  intros wf. split; [vm_compute; reflexivity|].
  apply (bias_corrected_file_depends_only_on_the_n4_mask
           used_ports word_name "enhance_and_skullstrip_bold_wf" 1 empty_world).
  vm_compute. reflexivity.
Defined.

Lemma raw_reference_outputs_do_not_depend_on_the_subworkflow_witness :
  let wf := declared (BoldReference 1 None "bold_reference_wf") in
  fst (build used_ports word_name (BoldReference 1 None "bold_reference_wf")
         empty_world) = OK wf
  ∧ map (fun f => map src (inbound wf "outputnode" f))
        ["bold_file"; "validation_report"; "raw_ref_image"; "skip_vols"]
    = [["validate"]; ["validate"]; ["gen_ref"]; ["gen_ref"]]
  ∧ (∀ m, depends_on wf "validate" m ↔ m ∈ ["inputnode"])
  ∧ (∀ m, depends_on wf "gen_ref" m ↔ m ∈ ["inputnode"; "validate"]).
Proof.
  intros wf. split; [vm_compute; reflexivity|].
  apply (raw_reference_outputs_do_not_depend_on_the_subworkflow
           used_ports word_name 1 None "bold_reference_wf" empty_world).
  vm_compute. reflexivity.
Defined.

Lemma headers_are_copied_from_the_input_image_witness :
  let wf := declared (EnhanceAndSkullstrip "enhance_and_skullstrip_bold_wf" 1)
  in
  fst (build used_ports word_name
         (EnhanceAndSkullstrip "enhance_and_skullstrip_bold_wf" 1)
         empty_world) = OK wf
  ∧ map node_name (nodes_wrapping CopyXForm wf)
    = ["fixhdr_unifize"; "fixhdr_skullstrip2"]
  ∧ Forall (fun n =>
              inbound wf (node_name n) "hdr_file"
              = [mkConnection "inputnode" "in_file" (node_name n) "hdr_file"])
           (nodes_wrapping CopyXForm wf).
Proof.
  intros wf. split; [vm_compute; reflexivity|].
  apply (headers_are_copied_from_the_input_image
           used_ports word_name "enhance_and_skullstrip_bold_wf" 1 empty_world).
  vm_compute. reflexivity.
Defined.

Lemma both_skullstrip_workflows_configure_their_nodes_alike_witness :
  let wfE := declared (EnhanceAndSkullstrip "enhance_and_skullstrip_bold_wf" 1)
  in
  let wfS := declared (Skullstrip "skullstrip_bold_wf") in
  fst (build used_ports word_name
         (EnhanceAndSkullstrip "enhance_and_skullstrip_bold_wf" 1)
         empty_world) = OK wfE
  ∧ fst (build used_ports word_name
             (Skullstrip "skullstrip_bold_wf") empty_world)
    = OK wfS
  ∧ Forall (fun n => is_Some (find_node n wfE)
                     ∧ find_node n wfE = find_node n wfS)
           ["skullstrip_first_pass"; "skullstrip_second_pass";
            "combine_masks"; "apply_mask"].
Proof.
  intros wfE wfS.
  assert (HE : fst (build used_ports word_name
                      (EnhanceAndSkullstrip "enhance_and_skullstrip_bold_wf" 1)
                      empty_world) = OK wfE).
  { vm_compute. reflexivity. }
  assert (HS : fst (build used_ports word_name (Skullstrip "skullstrip_bold_wf")
                      empty_world) = OK wfS).
  { vm_compute. reflexivity. }
  split; [exact HE|]. split; [exact HS|].
  exact (both_skullstrip_workflows_configure_their_nodes_alike
           used_ports word_name _ _ _ empty_world _ _ HE HS).
Defined.

Lemma exported_mask_is_the_applied_mask_witness :
  let c := Skullstrip "skullstrip_bold_wf" in
  (∃ name, c = Skullstrip name ∨ ∃ omp, c = EnhanceAndSkullstrip name omp)
  ∧ fst (build used_ports word_name c empty_world) = OK (declared c)
  ∧ map (fun cn => (src cn, src_out cn))
        (inbound (declared c) "outputnode" "mask_file")
    = [("combine_masks", "out_file")]
  ∧ map (fun cn => (src cn, src_out cn))
        (inbound (declared c) "apply_mask" "mask_file")
    = [("combine_masks", "out_file")]
  ∧ map (fun cn => (src cn, src_out cn))
        (inbound (declared c) "outputnode" "skull_stripped_file")
    = [("apply_mask", "out_file")].
Proof.
  intros c.
  assert (Hc : ∃ name, c = Skullstrip name
                       ∨ ∃ omp, c = EnhanceAndSkullstrip name omp).
  { exists "skullstrip_bold_wf". by left. }
  assert (H : fst (build used_ports word_name c empty_world) = OK (declared c)).
  { vm_compute. reflexivity. }
  split; [exact Hc|]. split; [exact H|].
  exact (exported_mask_is_the_applied_mask
           used_ports word_name c empty_world _ Hc H).
Defined.
